(** * Polyphonic subdivision for piano note transcription

    A shallow embedding of the array-level logic of [ps_preprocessing.py],
    [ps_inference.py] and [ps_model.py], with the properties of the
    specification stated over it.

    Conventions of the embedding
    - a numpy array is a shape together with its row-major data;
    - Python exceptions are values of an error monad;
    - float64 values that are only stored, compared with constants or divided
      (spectrogram bins, note times, weights) are rationals; the tensors of
      the loss, which go through a logarithm, are real numbers;
    - audio decoding, MIDI parsing and the neural networks are inputs: the
      spectrogram, the note list and the predictor are parameters. *)

From Stdlib Require Import Ascii String.
From Stdlib Require Import Reals Lra.
From Stdlib Require Lqa.
From Stdlib Require Import List ZArith QArith Qround Bool Lia.
Import ListNotations.

Local Open Scope Z_scope.

(** ** Python exceptions *)

Inductive exn : Type :=
| IndexError
| TypeError
| ValueError
| UnboundLocalError (name : string).

Inductive result (X : Type) : Type :=
| Ok (x : X)
| Raise (e : exn).

Arguments Ok {X} x.
Arguments Raise {X} e.

Definition bind {X Y : Type} (r : result X) (k : X -> result Y) : result Y :=
  match r with
  | Ok x => k x
  | Raise e => Raise e
  end.

Notation "x <- e ;; k" := (bind e (fun x => k))
  (at level 61, e at next level, right associativity).
Notation "' p <- e ;; k" := (bind e (fun p => k))
  (at level 61, p pattern, e at next level, right associativity).

Definition is_ok {X : Type} (r : result X) : bool :=
  match r with Ok _ => true | Raise _ => false end.

(** ** numpy arrays *)

Record ndarray (A : Type) : Type := mk_ndarray {
  shape : list nat;
  data : list A
}.

Arguments mk_ndarray {A} shape data.
Arguments shape {A} n.
Arguments data {A} n.

Definition prod_shape (sh : list nat) : nat := fold_right Nat.mul 1%nat sh.

(** [len(a)], i.e. [a.shape[0]]; every array of the program has rank >= 1. *)
Definition len {A} (a : ndarray A) : nat := hd 0%nat (shape a).

(** Number of scalars in one entry along axis 0. *)
Definition stride {A} (a : ndarray A) : nat := prod_shape (tl (shape a)).

(** [a.shape[k]] *)
Definition shape_at {A} (a : ndarray A) (k : nat) : result nat :=
  match nth_error (shape a) k with
  | Some d => Ok d
  | None => Raise IndexError
  end.

(** [np.zeros(dims)]: a negative dimension is a ValueError. *)
Definition np_zeros {A} (zero : A) (dims : list Z) : result (ndarray A) :=
  if forallb (fun d => 0 <=? d) dims
  then let sh := map Z.to_nat dims in
       Ok (mk_ndarray sh (repeat zero (prod_shape sh)))
  else Raise ValueError.

(** [np.append(a, b, axis=0)]: both arrays have the same rank >= 1 and agree
    on every axis but the first. *)
Definition np_append0 {A} (a b : ndarray A) : result (ndarray A) :=
  match shape a, shape b with
  | n1 :: r1, n2 :: r2 =>
      if list_eq_dec Nat.eq_dec r1 r2
      then Ok (mk_ndarray ((n1 + n2)%nat :: r1) (data a ++ data b))
      else Raise ValueError
  | _, _ => Raise ValueError
  end.

(** [np.squeeze(a)]: axes of length one are dropped. *)
Definition np_squeeze {A} (a : ndarray A) : ndarray A :=
  mk_ndarray (filter (fun d => negb (d =? 1)%nat) (shape a)) (data a).

(** [a.ravel()] *)
Definition ravel {A} (a : ndarray A) : list A := data a.

(** *** Indexing *)

(** A Python index into an axis of length [n]: negative indices count from
    the end, anything outside [-n, n) is an IndexError. *)
Definition index_norm (n : nat) (i : Z) : result nat :=
  if (0 <=? i) && (i <? Z.of_nat n) then Ok (Z.to_nat i)
  else if (- Z.of_nat n <=? i) && (i <? 0) then Ok (Z.to_nat (i + Z.of_nat n))
  else Raise IndexError.

(** One bound of a Python slice on an axis of length [n]: clipped, never an
    error. *)
Definition slice_bound (n : nat) (i : Z) : nat :=
  if i <? 0 then Z.to_nat (Z.max (i + Z.of_nat n) 0)
  else Nat.min (Z.to_nat i) n.

(** [a[i:j]] along axis 0. *)
Definition getslice {A} (a : ndarray A) (i j : Z) : ndarray A :=
  let s := slice_bound (len a) i in
  let e := slice_bound (len a) j in
  mk_ndarray ((e - s)%nat :: tl (shape a))
             (firstn ((e - s) * stride a) (skipn (s * stride a) (data a))).

(** [a[i:]] along axis 0. *)
Definition getslice_from {A} (a : ndarray A) (i : Z) : ndarray A :=
  getslice a i (Z.of_nat (len a)).

Fixpoint mapi_from {A B} (f : nat -> A -> B) (k : nat) (l : list A) : list B :=
  match l with
  | [] => []
  | x :: l' => f k x :: mapi_from f (S k) l'
  end.

Definition mapi {A B} (f : nat -> A -> B) (l : list A) : list B :=
  mapi_from f 0 l.

(** [a[i:j, c] = v] on a two-dimensional array. *)
Definition setitem_rows_col {A} (a : ndarray A) (i j c : Z) (v : A)
  : result (ndarray A) :=
  match shape a with
  | [n; m] =>
      c' <- index_norm m c ;;
      let s := slice_bound n i in
      let e := slice_bound n j in
      Ok (mk_ndarray (shape a)
            (mapi (fun k x =>
                     if (s <=? k / m)%nat && (k / m <? e)%nat
                        && (k mod m =? c')%nat
                     then v else x) (data a)))
  | _ => Raise IndexError
  end.

(** [a[r, c] = v] on a two-dimensional array. *)
Definition setitem_cell {A} (a : ndarray A) (r c : Z) (v : A)
  : result (ndarray A) :=
  match shape a with
  | [n; m] =>
      r' <- index_norm n r ;;
      c' <- index_norm m c ;;
      Ok (mk_ndarray (shape a)
            (mapi (fun k x => if (k =? r' * m + c')%nat then v else x)
                  (data a)))
  | _ => Raise IndexError
  end.

(** [a[r, :]] on a two-dimensional array. *)
Definition getitem_row {A} (a : ndarray A) (r : Z) : result (ndarray A) :=
  match shape a with
  | [n; m] =>
      r' <- index_norm n r ;;
      Ok (mk_ndarray [m] (firstn m (skipn (r' * m) (data a))))
  | _ => Raise IndexError
  end.

(** Reading the cell [(r, c)] of a two-dimensional array, for statements. *)
Definition cell {A} (d : A) (a : ndarray A) (r c : nat) : A :=
  nth (r * nth 1 (shape a) 0 + c)%nat (data a) d.

(** ** Python ranges *)

(** [range(lo, hi)] *)
Definition range (lo hi : Z) : list Z :=
  map (fun k => lo + Z.of_nat k) (seq 0 (Z.to_nat (hi - lo))).

(** [range(0, n, step)] for a positive step: 0, step, 2*step, ... below n. *)
Definition range_step (n : nat) (step : Z) : list Z :=
  map (fun k => Z.of_nat k * step)
      (seq 0 (Z.to_nat ((Z.of_nat n + step - 1) / step))).

(** ** ps_preprocessing.chunks *)

(** [list(chunks(sequence, length))]: the generator is always consumed whole.
    A zero step makes [range] raise ValueError, a negative one gives an empty
    range when [len(sequence) >= 0]. *)
Definition chunks {A} (sequence : ndarray A) (length : Z)
  : result (list (ndarray A)) :=
  if length =? 0 then Raise ValueError
  else if length <? 0 then Ok []
  else Ok (map (fun index => getslice sequence index (index + length))
               (range_step (len sequence) length)).

(** ** MIDI notes and frame indices *)

(** One row of [madmom.io.midi.load_midi]: five float64 values. *)
Record note : Type := mk_note {
  onset : Q;
  _pitch : Q;
  duration : Q;
  velocity : Q;
  _channel : Q
}.

(** [int(x)]: truncation towards zero. *)
Definition py_int (q : Q) : Z := Z.quot (Qnum q) (Zpos (Qden q)).

(** [int(np.round(x))]: numpy rounds to the nearest integer, halves to the
    even neighbour. *)
Definition np_round (q : Q) : Z :=
  let f := Qfloor (q + (1 # 2)) in
  if Qeq_bool (q + (1 # 2)) (inject_Z f) && Z.odd f then f - 1 else f.

Definition frame_start_of (nt : note) (dt : Q) : Z :=
  np_round (onset nt / dt).

Definition frame_end_of (nt : note) (dt : Q) : Z :=
  np_round ((onset nt + duration nt) / dt).

Definition label_of (nt : note) (is_chroma : bool) : Z :=
  let pitch := py_int (_pitch nt) in
  if is_chroma then (pitch - 21) mod 12 else pitch - 21.

(** [for x in xs: st = body(st, x)], stopping at the first exception. *)
Fixpoint for_each {S X} (body : S -> X -> result S) (st : S) (xs : list X)
  : result S :=
  match xs with
  | [] => Ok st
  | x :: xs' => st' <- body st x ;; for_each body st' xs'
  end.

(** ** ps_preprocessing.midi_to_groundtruth *)

(** Body of the loop over the notes; the state is [(ground_truth, onset_gt)]. *)
Definition midi_to_groundtruth_note (dt : Q) (is_chroma : bool)
    (st : ndarray Z * ndarray Z) (nt : note)
  : result (ndarray Z * ndarray Z) :=
  let '(ground_truth, onset_gt) := st in
  let frame_start := frame_start_of nt dt in
  let frame_end := frame_end_of nt dt in
  let label := label_of nt is_chroma in
  ground_truth <- setitem_rows_col ground_truth frame_start frame_end label 1 ;;
  if frame_start + 2 <=? frame_end
  then onset_gt <- setitem_rows_col onset_gt frame_start (frame_start + 2)
                                    label 1 ;;
       Ok (ground_truth, onset_gt)
  else Ok (ground_truth, onset_gt).

Definition midi_to_groundtruth (notes : list note) (dt : Q) (n_frames : Z)
    (is_chroma : bool) : result (ndarray Z * ndarray Z) :=
  ground_truth <- np_zeros 0 [n_frames; if is_chroma then 12 else 88] ;;
  onset_gt <- np_zeros 0 [n_frames; 88] ;;
  for_each (midi_to_groundtruth_note dt is_chroma) (ground_truth, onset_gt)
           notes.

(** ** ps_preprocessing.midi_to_triple_groundtruth *)

(** [for index in range(0, n_onset_plus)] over the list [onset_plus], whose
    length is [n_onset_plus]; [index] is the position of the head. *)
Fixpoint onset_plus_note (onset_plus : list (ndarray Z)) (index : Z)
    (frame_start frame_end label : Z) : result (list (ndarray Z)) :=
  match onset_plus with
  | [] => Ok []
  | a :: rest =>
      a' <- (if frame_start + index + 1 <? frame_end
             then setitem_cell a (frame_start + index + 1) label 1
             else Ok a) ;;
      rest' <- onset_plus_note rest (index + 1) frame_start frame_end label ;;
      Ok (a' :: rest')
  end.

Record triple_groundtruth : Type := mk_triple {
  frame_gt : ndarray Z;
  onset_gt : ndarray Z;
  offset_gt : ndarray Z;
  onset_plus : list (ndarray Z)
}.

Definition midi_to_triple_groundtruth_note (dt : Q)
    (st : triple_groundtruth) (nt : note) : result triple_groundtruth :=
  let frame_start := frame_start_of nt dt in
  let frame_end := frame_end_of nt dt in
  let label := label_of nt false in
  frame_gt' <- setitem_rows_col (frame_gt st) frame_start frame_end label 1 ;;
  onset_gt' <- setitem_cell (onset_gt st) frame_start label 1 ;;
  onset_plus' <- onset_plus_note (onset_plus st) 0 frame_start frame_end
                                 label ;;
  offset_gt' <- setitem_cell (offset_gt st) frame_end label 1 ;;
  Ok (mk_triple frame_gt' onset_gt' offset_gt' onset_plus').

(** [for index in range(0, n_onset_plus): onset_plus.append(np.zeros(...))] *)
Definition onset_plus_init (n_frames n_onset_plus : Z)
  : result (list (ndarray Z)) :=
  for_each (fun acc (_ : Z) =>
              z <- np_zeros 0 [n_frames; 88] ;; Ok (acc ++ [z]))
           [] (range 0 n_onset_plus).

Definition midi_to_triple_groundtruth (notes : list note) (dt : Q)
    (n_frames n_onset_plus : Z) : result triple_groundtruth :=
  frame_gt0 <- np_zeros 0 [n_frames; 88] ;;
  onset_gt0 <- np_zeros 0 [n_frames; 88] ;;
  onset_plus0 <- onset_plus_init n_frames n_onset_plus ;;
  offset_gt0 <- np_zeros 0 [n_frames; 88] ;;
  for_each (midi_to_triple_groundtruth_note dt)
           (mk_triple frame_gt0 onset_gt0 offset_gt0 onset_plus0) notes.

(** ** Serialized examples and the record writer *)

(** [tf.train.Feature]: a float list or an int64 list. *)
Inductive feature : Type :=
| float_list (value : list Q)
| int64_list (value : list Z).

(** [tf.train.Example]: the feature dict, in insertion order. *)
Definition example : Type := list (string * feature).

(** Code that writes to a [TFRecordWriter]: the records written so far are
    threaded through, and survive an exception. *)
Definition writer_m (X : Type) : Type :=
  list example -> list example * result X.

Definition wret {X} (x : X) : writer_m X := fun w => (w, Ok x).

Definition wbind {X Y} (m : writer_m X) (k : X -> writer_m Y) : writer_m Y :=
  fun w => match m w with
           | (w', Ok x) => k x w'
           | (w', Raise e) => (w', Raise e)
           end.

Definition wlift {X} (r : result X) : writer_m X := fun w => (w, r).

(** [writer.write(example.SerializeToString())] *)
Definition writer_write (ex : example) : writer_m unit :=
  fun w => (w ++ [ex], Ok tt).

Notation "x <~ e ;; k" := (wbind e (fun x => k))
  (at level 61, e at next level, right associativity).

Fixpoint wfor {S X} (body : S -> X -> writer_m S) (st : S) (xs : list X)
  : writer_m S :=
  match xs with
  | [] => wret st
  | x :: xs' => st' <~ body st x ;; wfor body st' xs'
  end.

(** [features_to_example] *)
Definition features_to_example (spectrogram : ndarray Q)
    (ground_truth : ndarray Z) : example :=
  [("label"%string, int64_list (data ground_truth));
   ("spec"%string, float_list (ravel spectrogram))].

(** [features_to_non_overlap_multi_head_example] *)
Definition features_to_non_overlap_multi_head_example
    (spectrogram : ndarray Q) (ground_truth onset : ndarray Z) : example :=
  [("label"%string, int64_list (ravel ground_truth));
   ("onset"%string, int64_list (ravel onset));
   ("spec"%string, float_list (ravel spectrogram))].

(** [np.max(a)]: an empty array has no maximum. *)
Definition np_max (a : ndarray Q) : result Q :=
  match data a with
  | [] => Raise ValueError
  | x :: xs => Ok (fold_left (fun m y => if Qle_bool m y then y else m) xs x)
  end.

(** [np.divide(spectrogram, np.max(spectrogram))] *)
Definition normalize (spectrogram : ndarray Q) : result (ndarray Q) :=
  m <- np_max spectrogram ;;
  Ok (mk_ndarray (shape spectrogram)
        (map (fun x => x / m)%Q (data spectrogram))).

(** What a Python name can be bound to here: an array, or a tuple. *)
Inductive pyobj : Type :=
| py_array (a : ndarray Z)
| py_tuple (items : list (ndarray Z)).

(** [obj[frame, :]]: a tuple cannot be subscripted by a pair. *)
Definition subscript_row (obj : pyobj) (frame : Z) : result (ndarray Z) :=
  match obj with
  | py_array a => getitem_row a frame
  | py_tuple _ => Raise TypeError
  end.

(** ** ps_preprocessing.write_file_to_tfrecords *)

(** The spectrogram ([wav_to_spec] or [wav_to_hpcp]) and the note list
    ([midi.load_midi]) are given; [fps] is [audio_config['fps']].  The name
    [ground_truth] is bound to whatever [midi_to_groundtruth] returns, which
    is the pair [(ground_truth, onset_gt)]. *)
Definition write_file_to_tfrecords (spectrogram : ndarray Q)
    (notes : list note) (fps : Q) (norm : bool) (context_frames : Z)
  : writer_m Z :=
  gt <~ wlift (midi_to_groundtruth notes (1 / fps)%Q
                 (Z.of_nat (len spectrogram)) false) ;;
  let ground_truth := py_tuple [fst gt; snd gt] in
  spectrogram <~ wlift (if norm then normalize spectrogram
                        else Ok spectrogram) ;;
  wfor (fun total_examples_processed frame =>
          label <~ wlift (subscript_row ground_truth frame) ;;
          let ex := features_to_example
                      (getslice spectrogram (frame - context_frames)
                                (frame + context_frames + 1))
                      label in
          _ <~ writer_write ex ;;
          wret (total_examples_processed + 1))
       0
       (range context_frames (Z.of_nat (len spectrogram) - context_frames)).

(** ** ps_preprocessing.write_file_to_non_overlap_tfrecords *)

(** [split[-1] = np.append(split[-1],
                 np.zeros([context_frames - split[-1].shape[0],
                           split[-1].shape[1]]), axis=0)] *)
Definition pad_last {A} (zero : A) (split : list (ndarray A))
    (context_frames : Z) : result (list (ndarray A)) :=
  match rev split with
  | [] => Raise IndexError
  | final :: _ =>
      rows <- shape_at final 0 ;;
      cols <- shape_at final 1 ;;
      z <- np_zeros zero [context_frames - Z.of_nat rows; Z.of_nat cols] ;;
      padded <- np_append0 final z ;;
      Ok (removelast split ++ [padded])
  end.

(** [zip(a, b, c)] *)
Definition zip3 {A B C} (a : list A) (b : list B) (c : list C)
  : list (A * B * C) := combine (combine a b) c.

Definition write_file_to_non_overlap_tfrecords (spectrogram : ndarray Q)
    (notes : list note) (fps : Q) (norm : bool) (context_frames : Z)
  : writer_m Z :=
  gt <~ wlift (midi_to_groundtruth notes (1 / fps)%Q
                 (Z.of_nat (len spectrogram)) false) ;;
  let '(ground_truth, onset_gt) := gt in
  spectrogram <~ wlift (if norm then normalize spectrogram
                        else Ok spectrogram) ;;
  split_spec <~ wlift (chunks spectrogram context_frames) ;;
  split_gt <~ wlift (chunks ground_truth context_frames) ;;
  split_onset_gt <~ wlift (chunks onset_gt context_frames) ;;
  split_spec <~ wlift (pad_last 0%Q split_spec context_frames) ;;
  split_gt <~ wlift (pad_last 0 split_gt context_frames) ;;
  split_onset_gt <~ wlift (pad_last 0 split_onset_gt context_frames) ;;
  wfor (fun total_examples_processed '(ex, gt, onset) =>
          _ <~ writer_write
                 (features_to_non_overlap_multi_head_example ex gt onset) ;;
          wret (total_examples_processed + 1))
       0
       (zip3 split_spec split_gt split_onset_gt).

(** ** ps_inference *)

(** The estimator predictor, seen through [get_activation]: it maps a feature
    window to the arrays stored under ['probabilities'] and
    ['onset_probabilities'], or raises (a window of the wrong shape). *)
Definition predictor_t : Type :=
  ndarray Q -> result (ndarray Q * ndarray Q).

Definition get_activation (features : ndarray Q)
    (estimator_predictor : predictor_t) : result (ndarray Q * ndarray Q) :=
  estimator_predictor features.

(** [a[frame, :] = (x, y)]: the right-hand side is the tuple returned by
    [get_activation]; numpy turns it into one array whose first axis has
    length two, which does not broadcast into a row. *)
Definition setitem_row_tuple {A} (a : ndarray A) (frame : Z)
    (value : ndarray A * ndarray A) : result (ndarray A) :=
  match shape a with
  | [n; m] => _ <- index_norm n frame ;; Raise ValueError
  | _ => Raise IndexError
  end.

(** [spectrogram_to_note_activation] *)
Definition spectrogram_to_note_activation (spec : ndarray Q)
    (context_frames : Z) (estimator_predictor : predictor_t)
  : result (ndarray Q) :=
  note_activation <- np_zeros 0%Q [Z.of_nat (len spec); 88] ;;
  note_activation <-
    for_each (fun note_activation frame =>
                act <- get_activation
                         (getslice spec (frame - context_frames)
                                   (frame + context_frames + 1))
                         estimator_predictor ;;
                setitem_row_tuple note_activation frame act)
             note_activation
             (range context_frames (Z.of_nat (len spec) - context_frames)) ;;
  z <- np_zeros 0%Q [8; 88] ;;
  np_append0 (getslice_from note_activation 8) z.

(** Modelled from the spec: [ps_utility.chunks], which is not among the
    sources; the specification describes it as producing the consecutive
    fixed-size slices of the sequence, the final one possibly shorter and
    not padded. *)
Definition util_chunks {A} (sequence : ndarray A) (length : Z)
  : result (list (ndarray A)) :=
  if length =? 0 then Raise ValueError
  else if length <? 0 then Ok []
  else Ok (map (fun index => getslice sequence index (index + length))
               (range_step (len sequence) length)).

(** Body of the loop [for split in split_spec] of
    [spectrogram_to_non_overlap_note_activation]; the state is the pair of
    buffers [(note_activation, onset_activation)]. *)
Definition non_overlap_step (estimator_predictor : predictor_t)
    (st : ndarray Q * ndarray Q) (split : ndarray Q)
  : result (ndarray Q * ndarray Q) :=
  let '(note_activation, onset_activation) := st in
  '(frame_act, onset_act) <- get_activation split estimator_predictor ;;
  let frame_act := np_squeeze frame_act in
  let onset_act := np_squeeze onset_act in
  note_activation <- np_append0 note_activation frame_act ;;
  onset_activation <- np_append0 onset_activation onset_act ;;
  Ok (note_activation, onset_activation).

(** [spectrogram_to_non_overlap_note_activation] *)
Definition spectrogram_to_non_overlap_note_activation (spec : ndarray Q)
    (context_frames : Z) (estimator_predictor : predictor_t)
  : result (ndarray Q * ndarray Q) :=
  note_activation <- np_zeros 0%Q [1; 88] ;;
  onset_activation <- np_zeros 0%Q [1; 88] ;;
  split_spec <- util_chunks spec context_frames ;;
  split_spec <- pad_last 0%Q split_spec context_frames ;;
  '(note_activation, onset_activation) <-
    for_each (non_overlap_step estimator_predictor)
             (note_activation, onset_activation) split_spec ;;
  Ok (getslice note_activation 3 (Z.of_nat (len spec) + 3),
      getslice onset_activation 1 (Z.of_nat (len spec) + 1)).

(** Reading a local variable that may never have been assigned. *)
Definition read_local {X} (name : string) (v : option X) : result X :=
  match v with
  | Some x => Ok x
  | None => Raise (UnboundLocalError name)
  end.

(** What [get_note_activation] returns. *)
Record note_activation_result : Type := mk_note_activation_result {
  res_note_activation : ndarray Q;
  res_onset_activation : ndarray Q;
  res_gt_frame : ndarray Z;
  res_gt_onset : ndarray Z;
  res_gt_offset : ndarray Z;
  res_onset_plus : list (ndarray Z)
}.

(** [get_note_activation]: the spectrogram and the notes are given; the two
    activation variables are locals that only some branches assign. *)
Definition get_note_activation (spectrogram : ndarray Q) (notes : list note)
    (fps : Q) (norm : bool) (context_frames : Z)
    (predictor : predictor_t) (n_onset_plus : Z) (use_rnn : bool)
  : result note_activation_result :=
  gt <- midi_to_triple_groundtruth notes (1 / fps)%Q
          (Z.of_nat (len spectrogram)) n_onset_plus ;;
  spectrogram <- (if norm then normalize spectrogram else Ok spectrogram) ;;
  '(note_activation, onset_activation) <-
    (if use_rnn
     then '(n, o) <- spectrogram_to_non_overlap_note_activation
                       spectrogram 2000 predictor ;;
          Ok (Some n, Some o)
     else n <- spectrogram_to_note_activation spectrogram context_frames
                 predictor ;;
          Ok (Some n, None)) ;;
  note_activation <- read_local "note_activation" note_activation ;;
  onset_activation <- read_local "onset_activation" onset_activation ;;
  Ok (mk_note_activation_result note_activation onset_activation
        (frame_gt gt) (onset_gt gt) (offset_gt gt) (onset_plus gt)).

(** ** ps_model.weights_from_labels *)

(** Positions of the entries equal to one, in row-major order:
    [np.where(labels == 1.0)] gives their coordinates. *)
Definition positions_of_ones (l : list Q) : list nat :=
  map fst (filter (fun p => Qeq_bool (snd p) 1)
                  (combine (seq 0 (length l)) l)).

Definition weights_from_labels (labels : ndarray Q) : result (ndarray Q) :=
  match shape labels with
  | _ :: _ :: _ =>
      let labeled_examples := positions_of_ones (data labels) in
      let rows := map (fun k => (k / stride labels)%nat) labeled_examples in
      weights <- np_zeros 0%Q (map Z.of_nat (shape labels)) ;;
      (* weights[labeled_examples[0], :] = 1.0 *)
      let weights1 :=
        mapi (fun k w => if existsb (Nat.eqb (k / stride labels)) rows
                         then 1%Q else w) (data weights) in
      (* weights[labeled_examples] = 2.0 *)
      let weights2 :=
        mapi (fun k w => if existsb (Nat.eqb k) labeled_examples
                         then 2%Q else w) weights1 in
      (* np.where(weights == 0.0, 0.25, weights) *)
      Ok (mk_ndarray (shape labels)
            (map (fun w => if Qeq_bool w 0 then (1 # 4)%Q else w) weights2))
  | _ => Raise IndexError
  end.

(** ** ps_model: tensors, log loss and [conv_net_init] *)

(** A tensor is the array of the values it evaluates to. *)
Definition tensor : Type := ndarray R.

Definition tsum (l : list R) : R := fold_right Rplus 0%R l.

(** [tf.reduce_mean] over all elements. *)
Definition reduce_mean (t : tensor) : R :=
  (tsum (data t) / INR (length (data t)))%R.

(** [tf.sigmoid] *)
Definition tf_sigmoid (t : tensor) : tensor :=
  mk_ndarray (shape t) (map (fun x => 1 / (1 + exp (- x)))%R (data t)).

(** [tf.clip_by_value] *)
Definition tf_clip_by_value (t : tensor) (lo hi : R) : tensor :=
  mk_ndarray (shape t) (map (fun x => Rmin (Rmax x lo) hi) (data t)).

(** [tf.cast(tf.greater_equal(t, 0.5), tf.float32)] *)
Definition threshold_classes (t : tensor) : tensor :=
  mk_ndarray (shape t)
    (map (fun x => if Rle_dec (1 / 2) x then 1%R else 0%R) (data t)).

(** [tf.unstack(t, axis=1)] *)
Definition tf_unstack1 (t : tensor) : result (list tensor) :=
  match shape t with
  | b :: k :: rest =>
      let s := prod_shape rest in
      Ok (map (fun j =>
                 mk_ndarray (b :: rest)
                   (flat_map
                      (fun i => firstn s (skipn ((i * k + j) * s) (data t)))
                      (seq 0 b)))
              (seq 0 k))
  | _ => Raise ValueError
  end.

(** [xs[k]] on a Python list. *)
Definition list_index {X} (xs : list X) (k : nat) : result X :=
  match nth_error xs k with
  | Some x => Ok x
  | None => Raise IndexError
  end.

(** [tf.concat([a, b], axis=2)] *)
Definition tf_concat2 (a b : tensor) : result tensor :=
  match shape a, shape b with
  | b1 :: t1 :: n1 :: r1, b2 :: t2 :: n2 :: r2 =>
      if (b1 =? b2)%nat && (t1 =? t2)%nat
         && (if list_eq_dec Nat.eq_dec r1 r2 then true else false)
      then let s1 := (n1 * prod_shape r1)%nat in
           let s2 := (n2 * prod_shape r2)%nat in
           Ok (mk_ndarray (b1 :: t1 :: (n1 + n2)%nat :: r1)
                 (flat_map (fun i => firstn s1 (skipn (i * s1) (data a))
                                     ++ firstn s2 (skipn (i * s2) (data b)))
                           (seq 0 (b1 * t1))))
      else Raise ValueError
  | _, _ => Raise ValueError
  end.

Fixpoint map2 {X Y Z'} (f : X -> Y -> Z') (xs : list X) (ys : list Y)
  : list Z' :=
  match xs, ys with
  | x :: xs', y :: ys' => f x y :: map2 f xs' ys'
  | _, _ => []
  end.

(** [log_loss(labels, predictions, epsilon)]: the elementwise losses
    [-labels * log(predictions + epsilon)
     - (1 - labels) * log(1 - predictions + epsilon)];
    the shapes must be compatible. *)
Definition log_loss (labels predictions : tensor) (epsilon : R)
  : result tensor :=
  if list_eq_dec Nat.eq_dec (shape predictions) (shape labels)
  then Ok (mk_ndarray (shape labels)
             (map2 (fun l p =>
                      - (l * ln (p + epsilon))
                      - (1 - l) * ln (1 - p + epsilon))%R
                   (data labels) (data predictions)))
  else Raise ValueError.

Inductive mode_key : Type := TRAIN | EVAL | PREDICT.

Definition mode_eqb (a b : mode_key) : bool :=
  match a, b with
  | TRAIN, TRAIN | EVAL, EVAL | PREDICT, PREDICT => true
  | _, _ => false
  end.

Record predictions_t : Type := mk_predictions {
  classes : tensor;
  probabilities : tensor;
  onset_probabilities : tensor;
  logits_out : tensor
}.

(** The train op, by the optimizer that minimizes the loss. *)
Inductive train_op_t : Type :=
| adam_train_op (loss : R)
| momentum_train_op (loss : R).

(** [tf.estimator.EstimatorSpec]; the evaluation metrics are kept as the
    pair (labels, predicted classes) they are computed from. *)
Record EstimatorSpec : Type := mk_EstimatorSpec {
  spec_mode : mode_key;
  spec_predictions : predictions_t;
  spec_loss : option R;
  spec_train_op : option train_op_t;
  spec_eval_metric_ops : option (tensor * tensor)
}.

Section ConvNet.

(** The networks are given by the values they compute: the recurrent ResNet
    under a variable scope, the plain ResNet, and the fully connected
    sigmoid layer [fc_frame]. *)
Variable resnet_rnn : string -> tensor -> bool -> tensor.
Variable resnet : tensor -> bool -> tensor.
Variable fc_frame : tensor -> tensor.

(** [conv_net_init].  Local variables that only one branch assigns are
    options; [tf.losses.add_loss] appends to the loss collection of the
    graph, which is empty on entry, and [tf.losses.get_total_loss] adds up
    the collection (the model declares no regularizer). *)
Definition conv_net_init (features labels : tensor) (mode : mode_key)
    (clip_norm : R) (use_rnn : bool) : result EstimatorSpec :=
  let training := mode_eqb mode TRAIN in
  '(label_frames, label_onset) <-
    (if negb (mode_eqb mode PREDICT)
     then labels_unstacked <- tf_unstack1 labels ;;
          label_frames <- list_index labels_unstacked 0 ;;
          label_onset <- list_index labels_unstacked 1 ;;
          Ok (Some label_frames, Some label_onset)
     else Ok (None, None)) ;;
  let '(probs_subdiv_1, probs_subdiv_2, logits) :=
    if use_rnn
    then (Some (tf_sigmoid (resnet_rnn "frames" features training)),
          Some (tf_sigmoid (resnet_rnn "onsets" features training)),
          None)
    else (None, None, Some (resnet features training)) in
  p1 <- read_local "probs_subdiv_1" probs_subdiv_1 ;;
  p2 <- read_local "probs_subdiv_2" probs_subdiv_2 ;;
  combined_probs <- tf_concat2 p1 p2 ;;
  let combined_probs := fc_frame combined_probs in
  onset_probs <- read_local "probs_subdiv_2" probs_subdiv_2 ;;
  let predictions :=
    mk_predictions (threshold_classes combined_probs) combined_probs
                   onset_probs combined_probs in
  if mode_eqb mode PREDICT
  then Ok (mk_EstimatorSpec mode predictions None None None)
  else
    '(individual_loss_subdiv_1, individual_loss_subdiv_2, frame_losses) <-
      (if use_rnn
       then lf <- read_local "label_frames" label_frames ;;
            lo <- read_local "label_onset" label_onset ;;
            l1 <- log_loss lf p1 clip_norm ;;
            l2 <- log_loss lo p2 clip_norm ;;
            l3 <- log_loss combined_probs lf clip_norm ;;
            Ok (Some l1, Some l2, Some l3)
       else _ <- log_loss labels
                   (tf_clip_by_value (probabilities predictions)
                      clip_norm (1 - clip_norm)) 0 ;;
            Ok (None, None, None)) ;;
    l1 <- read_local "individual_loss_subdiv_1" individual_loss_subdiv_1 ;;
    let losses := [reduce_mean l1] in
    l2 <- read_local "individual_loss_subdiv_2" individual_loss_subdiv_2 ;;
    let losses := losses ++ [reduce_mean l2] in
    l3 <- read_local "frame_losses" frame_losses ;;
    let losses := losses ++ [reduce_mean l3] in
    let loss := fold_left Rplus losses 0%R in
    let train_op :=
      if mode_eqb mode TRAIN
      then Some (if use_rnn then adam_train_op loss
                 else momentum_train_op loss)
      else None in
    lf <- read_local "label_frames" label_frames ;;
    Ok (mk_EstimatorSpec mode predictions (Some loss) train_op
          (Some (lf, classes predictions))).

End ConvNet.

(** The total loss as the specification words it: three log-loss terms, each
    taking (labels, predictions) in that order, reduced to their means and
    added up. *)
Definition spec_total_loss (label_frames label_onset p_frames p_onsets
    combined : tensor) (epsilon : R) : result R :=
  l1 <- log_loss label_frames p_frames epsilon ;;
  l2 <- log_loss label_onset p_onsets epsilon ;;
  l3 <- log_loss label_frames combined epsilon ;;
  Ok (reduce_mean l1 + reduce_mean l2 + reduce_mean l3)%R.

(** ** ps_model.put_kernels_on_grid: the grid shape *)

(** The loop [for i in range(start, 0, -1)] of [factorization], counted down
    structurally: the first [i] that divides [n] gives [(i, int(n / i))];
    falling off the loop returns [None]. *)
Fixpoint factorization_from (n : Z) (i : nat) : option (Z * Z) :=
  match i with
  | O => None
  | S i' =>
      if n mod Z.of_nat i =? 0 then Some (Z.of_nat i, n / Z.of_nat i)
      else factorization_from n i'
  end.

(** [factorization(n)], nested in [put_kernels_on_grid]; the loop starts at
    [int(sqrt(float(n)))], and [sqrt] of a negative number is a ValueError. *)
Definition factorization (n : Z) : result (option (Z * Z)) :=
  if n <? 0 then Raise ValueError
  else Ok (factorization_from n (Z.to_nat (Z.sqrt n))).

(** [(grid_Y, grid_X) = factorization(...)]: unpacking [None] is a
    TypeError. *)
Definition grid_shape (n : Z) : result (Z * Z) :=
  r <- factorization n ;;
  match r with
  | Some yx => Ok yx
  | None => Raise TypeError
  end.

(** ** ps_model.put_kernels_on_grid: the shape of the image *)

(** The rearranging operations of TensorFlow, on shapes: [tf.pad],
    [tf.transpose] and [tf.reshape], which needs as many elements as it is
    given. *)
Definition tf_pad_shape (sh : list Z) (paddings : list (Z * Z)) : list Z :=
  map2 (fun d p => fst p + d + snd p) sh paddings.

Definition tf_transpose_shape (sh : list Z) (perm : list nat) : list Z :=
  map (fun k => nth k sh 0) perm.

Definition tf_reshape_shape (sh new_shape : list Z) : result (list Z) :=
  if fold_right Z.mul 1 sh =? fold_right Z.mul 1 new_shape
  then Ok new_shape else Raise ValueError.

(** [put_kernels_on_grid] on the shape of [kernel]: the shape of the tensor
    it returns. *)
Definition put_kernels_on_grid (kernel : list Z) (pad : Z)
  : result (list Z) :=
  '(grid_Y, grid_X) <- grid_shape (nth 3 kernel 0) ;;
  let x := tf_pad_shape kernel [(pad, pad); (pad, pad); (0, 0); (0, 0)] in
  let Y := nth 0 kernel 0 + 2 * pad in
  let X := nth 1 kernel 0 + 2 * pad in
  let channels := nth 2 kernel 0 in
  let x := tf_transpose_shape x [3; 0; 1; 2]%nat in
  x <- tf_reshape_shape x [grid_X; Y * grid_Y; X; channels] ;;
  let x := tf_transpose_shape x [0; 2; 1; 3]%nat in
  x <- tf_reshape_shape x [1; X * grid_X; Y * grid_Y; channels] ;;
  let x := tf_transpose_shape x [2; 1; 3; 0]%nat in
  let x := tf_transpose_shape x [3; 0; 1; 2]%nat in
  Ok x.

(** ** ps_preprocessing.wav_to_spec: combining and scaling *)

(** [a + b] for two arrays of one shape, as madmom's difference processor
    returns an array of the shape of its input; other pairs of shapes are
    rejected here. *)
Definition np_add (a b : ndarray Q) : result (ndarray Q) :=
  if list_eq_dec Nat.eq_dec (shape a) (shape b)
  then Ok (mk_ndarray (shape a) (map2 Qplus (data a) (data b)))
  else Raise ValueError.

(** [np.clip] on one value: [minimum(a_max, maximum(x, a_min))]. *)
Definition clip_value (a_min a_max x : Q) : Q :=
  let y := if Qle_bool x a_min then a_min else x in
  if Qle_bool a_max y then a_max else y.

(** [np.clip(a, a_min=a_min, a_max=a_max)] *)
Definition np_clip (a : ndarray Q) (a_min a_max : Q) : ndarray Q :=
  mk_ndarray (shape a) (map (clip_value a_min a_max) (data a)).

(** [wav_to_spec], from the point where madmom has delivered the filtered
    spectrogram and its two difference spectrograms, [superflux_proc(s)] and
    [superflux_proc(s.T).T]: they are added up, divided by the maximum (of a
    scalar, [np.max] is the scalar itself) and clipped to [0.001, 1.0].  A
    zero maximum gives inf and nan in numpy, which the rationals do not
    have. *)
Definition wav_to_spec (spectrogram superflux_time superflux_freq : ndarray Q)
  : result (ndarray Q) :=
  comb <- np_add spectrogram superflux_time ;;
  comb <- np_add comb superflux_freq ;;
  m <- np_max comb ;;
  let comb := mk_ndarray (shape comb) (map (fun x => x / m)%Q (data comb)) in
  Ok (np_clip comb (1 # 1000) 1).

(** ** ps_preprocessing: whole folds *)

(** [s.split(sep)] for a separator of one character. *)
Fixpoint str_split (sep : Ascii.ascii) (s : string) : list string :=
  match s with
  | EmptyString => [EmptyString]
  | String c rest =>
      if Ascii.eqb c sep then EmptyString :: str_split sep rest
      else match str_split sep rest with
           | seg :: segs => String c seg :: segs
           | [] => [String c EmptyString]
           end
  end.

(** [file.split('/')[-1]] *)
Definition last_segment (file : string) : string :=
  last (str_split "/"%char file) EmptyString.

(** One line of the fold file together with what madmom reads for it: the
    spectrogram of the audio file and the notes of the MIDI file. *)
Record fold_entry : Type := mk_fold_entry {
  entry_file : string;
  entry_spectrogram : ndarray Q;
  entry_notes : list note
}.

(** The record files on disk, by path. *)
Definition record_files : Type := list (string * list example).

(** Code that creates record files; what has been written survives an
    exception. *)
Definition files_m (X : Type) : Type :=
  record_files -> record_files * result X.

Definition fret {X} (x : X) : files_m X := fun fs => (fs, Ok x).

Definition fbind {X Y} (m : files_m X) (k : X -> files_m Y) : files_m Y :=
  fun fs => match m fs with
            | (fs', Ok x) => k x fs'
            | (fs', Raise e) => (fs', Raise e)
            end.

Fixpoint ffor {S X} (body : S -> X -> files_m S) (st : S) (xs : list X)
  : files_m S :=
  match xs with
  | [] => fret st
  | x :: xs' => fbind (body st x) (fun st' => ffor body st' xs')
  end.

(** [writer = tf.python_io.TFRecordWriter(write_file)]: the file is created,
    or emptied if it exists, and holds what is written through the writer. *)
Definition with_writer {X} (write_file : string) (job : writer_m X)
  : files_m X :=
  fun fs =>
    let '(w, r) := job [] in
    ((write_file, w)
       :: filter (fun f => negb (String.eqb (fst f) write_file)) fs, r).

(** The content of a record file, if it exists. *)
Definition read_records (fs : record_files) (path : string)
  : option (list example) :=
  option_map snd (find (fun f => String.eqb (fst f) path) fs).

(** [config['tfrecords_' + mode + '_fold'] + file.split('/')[-1]
     + ".tfrecords"] *)
Definition record_path (tfrecords_fold : string) (file : fold_entry)
  : string :=
  (tfrecords_fold ++ last_segment (entry_file file) ++ ".tfrecords")%string.

(** [preprocess_fold]; the result is the count it prints and saves. *)
Definition preprocess_fold (tfrecords_fold : string) (fps : Q)
    (context_frames : Z) (filenames : list fold_entry) (norm : bool)
  : files_m Z :=
  ffor (fun total_examples_processed file =>
          fbind (with_writer (record_path tfrecords_fold file)
                   (write_file_to_tfrecords (entry_spectrogram file)
                      (entry_notes file) fps norm context_frames))
                (fun num_ex_processed =>
                   fret (total_examples_processed + num_ex_processed)))
       0 filenames.

(** [preprocess_non_overlap_fold] *)
Definition preprocess_non_overlap_fold (tfrecords_fold : string) (fps : Q)
    (context_frames : Z) (filenames : list fold_entry) (norm : bool)
  : files_m Z :=
  ffor (fun total_examples_processed file =>
          fbind (with_writer (record_path tfrecords_fold file)
                   (write_file_to_non_overlap_tfrecords
                      (entry_spectrogram file) (entry_notes file) fps norm
                      context_frames))
                (fun num_ex_processed =>
                   fret (total_examples_processed + num_ex_processed)))
       0 filenames.

(** ** ps_inference.write_note_activation_to_mat *)

(** What [savemat] stores: the activations under "features" and the value of
    [midi_to_groundtruth], a pair of arrays, under "labels". *)
Record mat_file : Type := mk_mat_file {
  mat_features : ndarray Q;
  mat_labels : ndarray Z * ndarray Z
}.

Definition write_note_activation_to_mat (spectrogram : ndarray Q)
    (notes : list note) (fps : Q) (norm : bool) (context_frames : Z)
    (predictor : predictor_t) : result mat_file :=
  ground_truth <- midi_to_groundtruth notes (1 / fps)%Q
                    (Z.of_nat (len spectrogram)) false ;;
  spectrogram <- (if norm then normalize spectrogram else Ok spectrogram) ;;
  note_activation <- spectrogram_to_note_activation spectrogram context_frames
                       predictor ;;
  Ok (mk_mat_file note_activation ground_truth).

(** ** ps_preprocessing.jams_to_midi *)

(** One observation of a JAMS annotation. *)
Record observation : Type := mk_observation {
  obs_time : Q;
  obs_duration : Q;
  obs_value : Q
}.

(** [pretty_midi.Note], [pretty_midi.PitchBend] and
    [pretty_midi.Instrument]. *)
Record midi_note : Type := mk_midi_note {
  note_velocity : Z;
  note_pitch : Z;
  note_start : Q;
  note_end : Q
}.

Record pitch_bend : Type := mk_pitch_bend {
  bend_pitch : Z;
  bend_time : Q
}.

Record instrument : Type := mk_instrument {
  instrument_program : Z;
  instrument_notes : list midi_note;
  instrument_pitch_bends : list pitch_bend
}.

(** [int(round(x))]: Python 3 rounds to the nearest integer, halves to the
    even neighbour, as numpy does. *)
Definition py_round (q : Q) : Z := np_round q.

(** Body of the loop over the observations of one annotation.  The state is
    the number of random draws made so far and the instrument; [rand k] is
    what the [k]-th call of [np.random.choice(range(-5, 5))] returns. *)
Definition jams_to_midi_note (q : Z) (rand : nat -> Z)
    (st : nat * instrument) (note : observation) : nat * instrument :=
  let '(k, midi_ch) := st in
  let pitch := py_round (obs_value note) in
  let bend_amount :=
    py_round ((obs_value note - inject_Z pitch) * 4096)%Q in
  let st := obs_time note in
  let dur := obs_duration note in
  let n := mk_midi_note (100 + rand k) pitch st (st + dur)%Q in
  let pb := mk_pitch_bend (bend_amount * q) st in
  (S k,
   mk_instrument (instrument_program midi_ch)
     (instrument_notes midi_ch ++ [n])
     (instrument_pitch_bends midi_ch ++ [pb])).

(** Body of the loop over the annotations; an instrument without notes is
    not added. *)
Definition jams_to_midi_anno (q : Z) (rand : nat -> Z)
    (st : nat * list instrument) (anno : list observation)
  : nat * list instrument :=
  let '(k, instruments) := st in
  let '(k', midi_ch) :=
    fold_left (jams_to_midi_note q rand) anno (k, mk_instrument 25 [] []) in
  (k', if negb (length (instrument_notes midi_ch) =? 0)%nat
       then instruments ++ [midi_ch] else instruments).

(** [jams_to_midi]: the annotations found under the namespace 'note_midi'
    and under 'pitch_midi' are given; the result is the instrument list of
    the MIDI object. *)
Definition jams_to_midi (note_midi pitch_midi : list (list observation))
    (q : Z) (rand : nat -> Z) : list instrument :=
  let annos := note_midi in
  let annos := if (length annos =? 0)%nat then pitch_midi else annos in
  snd (fold_left (jams_to_midi_anno q rand) annos (0%nat, [])).

(** ** Predicates of the statements *)

(** A two-dimensional array with as many scalars as its shape says. *)
Definition is_matrix {A} (a : ndarray A) (n m : nat) : Prop :=
  shape a = [n; m] /\ length (data a) = (n * m)%nat.

(** A note as MIDI parsing delivers it for a piano: times are not negative
    and the pitch is one of the 88 keys. *)
Definition note_ok (nt : note) : Prop :=
  (0 <= onset nt)%Q /\ (0 <= duration nt)%Q /\ 21 <= py_int (_pitch nt) <= 108.

(** The cell [(r, c)] lies in the frames a note covers: rows
    [frame_start <= r < frame_end] of the column of its label. *)
Definition in_frames (dt : Q) (is_chroma : bool) (r c : nat) (nt : note)
  : bool :=
  (frame_start_of nt dt <=? Z.of_nat r)
  && (Z.of_nat r <? frame_end_of nt dt)
  && (label_of nt is_chroma =? Z.of_nat c).

(** The cell [(r, c)] lies in the two onset rows of a note that spans at
    least two frames. *)
Definition in_onset (dt : Q) (is_chroma : bool) (r c : nat) (nt : note)
  : bool :=
  (frame_start_of nt dt + 2 <=? frame_end_of nt dt)
  && ((frame_start_of nt dt <=? Z.of_nat r)
      && (Z.of_nat r <? frame_start_of nt dt + 2)
      && (label_of nt is_chroma =? Z.of_nat c)).

(** Number of label columns of the frame ground truth. *)
Definition label_columns (is_chroma : bool) : nat :=
  if is_chroma then 12%nat else 88%nat.



(** The note of the specification's examples: onset 0.0 s, pitch 60,
    duration 0.5 s. *)
Definition single_note : note := mk_note 0 60 (1 # 2) 100 0.

(** A predictor that answers every window with all-zero activations of
    shape [1, frames, 88]. *)
Definition zero_predictor (frames : nat) : predictor_t :=
  fun _ =>
    Ok (mk_ndarray [1; frames; 88]%nat (repeat 0%Q (frames * 88)),
        mk_ndarray [1; frames; 88]%nat (repeat 0%Q (frames * 88))).

(** A spectrogram of the given size with every bin at one half. *)
Definition flat_spectrogram (frames bins : nat) : ndarray Q :=
  mk_ndarray [frames; bins] (repeat (1 # 2)%Q (frames * bins)).

(** The data of the rows [lo <= r < hi] of an array. *)
Definition rows_between {A} (a : ndarray A) (lo hi : nat) : list A :=
  firstn ((hi - lo) * stride a) (skipn (lo * stride a) (data a)).

(** Rows of the [i]-th chunk of length [c] that come from the array. *)
Definition real_rows {A} (a : ndarray A) (c i : nat) : nat :=
  Nat.min c (len a - i * c).

(** The [i]-th chunk of length [c] as the array has it: the rows
    [i*c <= r < i*c + c] that exist, nothing added. *)
Definition raw_chunk {A} (a : ndarray A) (c i : nat) : ndarray A :=
  mk_ndarray [real_rows a c i; stride a]
    (rows_between a (i * c) (i * c + real_rows a c i)).

(** The [i]-th chunk filled up with zero rows to [c] rows. *)
Definition padded_chunk {A} (zero : A) (a : ndarray A) (c i : nat)
  : ndarray A :=
  mk_ndarray [c; stride a]
    (data (raw_chunk a c i)
     ++ repeat zero ((c - real_rows a c i) * stride a)).

(** Number of chunks of length [c] in [f] rows: the quotient rounded up. *)
Definition chunk_count (f c : nat) : nat := ((f + c - 1) / c)%nat.

(** A tensor of the given shape with [n] copies of one value. *)
Definition constant_tensor (sh : list nat) (x : R) (n : nat) : tensor :=
  mk_ndarray sh (repeat x n).

(** Labels of one batch entry with one silent frame: the frame plane and the
    onset plane, 88 zeros each. *)
Definition silent_labels : tensor := constant_tensor [1; 2; 1; 88]%nat 0%R 176.

(** A recurrent network whose logits are all zero, and a fused layer whose
    88 outputs are all one half. *)
Definition zero_logits_rnn : string -> tensor -> bool -> tensor :=
  fun _ _ _ => constant_tensor [1; 1; 88]%nat 0%R 88.

Definition half_fc_frame : tensor -> tensor :=
  fun _ => constant_tensor [1; 1; 88]%nat (1 / 2)%R 88.




(** The key of a note is a valid column index of an 88-column matrix, counted
    from either end. *)
Definition label_indexable (nt : note) : Prop :=
  -88 <= label_of nt false < 88.

(** The float values and the integer values a record stores under a name,
    read from the start of each feature list. *)
Definition spec_values (ex : example) : list Q :=
  flat_map (fun kv => match kv with
                      | (name, float_list v) =>
                          if String.eqb name "spec" then v else []
                      | _ => []
                      end) ex.

Definition int_values (key : string) (ex : example) : list Z :=
  flat_map (fun kv => match kv with
                      | (name, int64_list v) =>
                          if String.eqb name key then v else []
                      | _ => []
                      end) ex.

(** The sum of the spectrogram and its two difference spectrograms. *)
Definition spec_sum (spectrogram superflux_time superflux_freq : ndarray Q)
  : ndarray Q :=
  mk_ndarray (shape spectrogram)
    (map2 Qplus (map2 Qplus (data spectrogram) (data superflux_time))
          (data superflux_freq)).

(** A fold entry as the writers expect it: a non-empty spectrogram matrix
    and notes of the piano. *)
Definition entry_ok (file : fold_entry) : Prop :=
  exists F B,
    is_matrix (entry_spectrogram file) F B /\ (0 < F)%nat /\ (0 < B)%nat
    /\ Forall note_ok (entry_notes file).

(** The number of records of one fold entry: its frames in chunks of
    [context_frames], rounded up. *)
Definition entry_records (context_frames : Z) (file : fold_entry) : Z :=
  Z.of_nat (chunk_count (len (entry_spectrogram file))
                        (Z.to_nat context_frames)).

(** [sum] of a list of integers. *)
Definition zsum (l : list Z) : Z := fold_right Z.add 0 l.

(** An instrument as [jams_to_midi] builds it: program 25, at least one
    note, one pitch bend per note, velocities within 100 - 5 .. 100 + 4 and
    bends within 2048 * |q|. *)
Definition instrument_ok (q : Z) (i : instrument) : Prop :=
  instrument_program i = 25
  /\ instrument_notes i <> []
  /\ length (instrument_pitch_bends i) = length (instrument_notes i)
  /\ Forall (fun n => 95 <= note_velocity n <= 104) (instrument_notes i)
  /\ Forall (fun pb => Z.abs (bend_pitch pb) <= 2048 * Z.abs q)
            (instrument_pitch_bends i).

(** * Properties *)

(** ** Lists and arrays *)

Lemma mapi_from_length {A B} (f : nat -> A -> B) l k :
  length (mapi_from f k l) = length l.
Proof.
  revert k; induction l as [|x l IH]; intros k; simpl; [reflexivity|].
  now rewrite IH.
Qed.

Lemma mapi_length {A B} (f : nat -> A -> B) l :
  length (mapi f l) = length l.
Proof. apply mapi_from_length. Qed.

Lemma mapi_from_nth {A B} (f : nat -> A -> B) l k i dA dB :
  (i < length l)%nat ->
  nth i (mapi_from f k l) dB = f (k + i)%nat (nth i l dA).
Proof.
  revert k i; induction l as [|x l IH]; intros k i Hi; simpl in *; [lia|].
  destruct i as [|i].
  - now rewrite Nat.add_0_r.
  - rewrite (IH (S k) i) by lia. f_equal. lia.
Qed.

Lemma mapi_nth {A B} (f : nat -> A -> B) l i dA dB :
  (i < length l)%nat -> nth i (mapi f l) dB = f i (nth i l dA).
Proof.
  intros Hi. unfold mapi. now rewrite (mapi_from_nth f l 0 i dA dB Hi).
Qed.

Lemma nth_map_lt {A B} (f : A -> B) l i dA dB :
  (i < length l)%nat -> nth i (map f l) dB = f (nth i l dA).
Proof.
  intros Hi. rewrite (nth_indep _ dB (f dA)) by now rewrite length_map.
  apply map_nth.
Qed.

Lemma cell_index_div r c m : (c < m)%nat -> ((r * m + c) / m = r)%nat.
Proof.
  intros Hc. rewrite Nat.add_comm, Nat.div_add by lia.
  rewrite Nat.div_small by lia. reflexivity.
Qed.

Lemma cell_index_mod r c m : (c < m)%nat -> ((r * m + c) mod m = c)%nat.
Proof.
  intros Hc. rewrite Nat.add_comm, Nat.Div0.mod_add.
  now apply Nat.mod_small.
Qed.

Lemma cell_index_lt r c n m :
  (r < n)%nat -> (c < m)%nat -> (r * m + c < n * m)%nat.
Proof. intros Hr Hc. nia. Qed.

Lemma index_norm_in_range n i :
  0 <= i < Z.of_nat n -> index_norm n i = Ok (Z.to_nat i).
Proof.
  intros H. unfold index_norm.
  replace (0 <=? i) with true by (symmetry; apply Z.leb_le; lia).
  replace (i <? Z.of_nat n) with true by (symmetry; apply Z.ltb_lt; lia).
  reflexivity.
Qed.


Lemma slice_bound_nonneg n i :
  0 <= i -> slice_bound n i = Nat.min (Z.to_nat i) n.
Proof.
  intros H. unfold slice_bound.
  now replace (i <? 0) with false by (symmetry; apply Z.ltb_ge; lia).
Qed.

Lemma np_zeros_2d {A} (zero : A) n m :
  0 <= n -> 0 <= m ->
  np_zeros zero [n; m]
  = Ok (mk_ndarray [Z.to_nat n; Z.to_nat m]
          (repeat zero (Z.to_nat n * Z.to_nat m))).
Proof.
  intros Hn Hm. unfold np_zeros. simpl.
  replace (0 <=? n) with true by (symmetry; apply Z.leb_le; lia).
  replace (0 <=? m) with true by (symmetry; apply Z.leb_le; lia).
  simpl. now rewrite Nat.mul_1_r.
Qed.

(** [a[i:j, c] = v] with a column inside the array and non-negative bounds:
    the cells of column [c] in the rows [i <= r < j] take the value [v]
    (rows beyond the array are clipped away), every other cell is kept. *)
Lemma setitem_rows_col_spec {A} (d : A) a n m i j c v :
  is_matrix a n m -> 0 <= i -> 0 <= j -> 0 <= c < Z.of_nat m ->
  exists a',
    setitem_rows_col a i j c v = Ok a' /\ is_matrix a' n m /\
    forall r c0, (r < n)%nat -> (c0 < m)%nat ->
      cell d a' r c0
      = if (i <=? Z.of_nat r) && (Z.of_nat r <? j) && (c =? Z.of_nat c0)
        then v else cell d a r c0.
Proof.
  intros [Hs Hl] Hi Hj Hc. unfold setitem_rows_col. rewrite Hs.
  rewrite index_norm_in_range by assumption. cbn [bind].
  eexists. split; [reflexivity|]. split.
  - split; [reflexivity | cbn; now rewrite mapi_length].
  - intros r c0 Hr Hc0.
    unfold cell at 1. cbn [shape data nth].
    rewrite (mapi_nth _ _ _ d d) by (rewrite Hl; now apply cell_index_lt).
    rewrite cell_index_div, cell_index_mod by assumption.
    rewrite !slice_bound_nonneg by assumption.
    unfold cell. rewrite Hs. cbn [nth].
    assert (E : ((Nat.min (Z.to_nat i) n <=? r)%nat
                 && (r <? Nat.min (Z.to_nat j) n)%nat
                 && (c0 =? Z.to_nat c)%nat)
                = ((i <=? Z.of_nat r) && (Z.of_nat r <? j)
                   && (c =? Z.of_nat c0))).
    { destruct (Z.leb_spec i (Z.of_nat r)), (Z.ltb_spec (Z.of_nat r) j),
        (Z.eqb_spec c (Z.of_nat c0));
      destruct (Nat.leb_spec (Nat.min (Z.to_nat i) n) r),
        (Nat.ltb_spec r (Nat.min (Z.to_nat j) n)),
        (Nat.eqb_spec c0 (Z.to_nat c)); cbn; try reflexivity; lia. }
    now rewrite E.
Qed.



(** ** Rounding and frame indices *)

Lemma np_round_cases q :
  np_round q = Qfloor (q + (1 # 2)) \/
  (np_round q = Qfloor (q + (1 # 2)) - 1 /\
   (q + (1 # 2) == inject_Z (Qfloor (q + (1 # 2))))%Q /\
   Z.odd (Qfloor (q + (1 # 2))) = true).
Proof.
  unfold np_round.
  destruct (Qeq_bool _ _) eqn:E; cbn [andb]; [|now left].
  destruct (Z.odd _) eqn:O; [|now left].
  right. split; [reflexivity|]. split; [now apply Qeq_bool_iff | reflexivity].
Qed.

Lemma np_round_nonneg q : (0 <= q)%Q -> 0 <= np_round q.
Proof.
  intros Hq.
  assert (H0 : 0 <= Qfloor (q + (1 # 2))).
  { change 0 with (Qfloor 0). apply Qfloor_resp_le.
    apply Qle_trans with q; [assumption|].
    rewrite <- (Qplus_0_r q) at 1. apply Qplus_le_r. discriminate. }
  destruct (np_round_cases q) as [-> | (-> & _ & O)]; [assumption|].
  assert (Qfloor (q + (1 # 2)) <> 0)
    by (intros E; rewrite E in O; discriminate).
  lia.
Qed.

Lemma np_round_le q q' : (q <= q')%Q -> np_round q <= np_round q'.
Proof.
  intros Hq.
  assert (Ha : (q + (1 # 2) <= q' + (1 # 2))%Q) by now apply Qplus_le_l.
  pose proof (Qfloor_resp_le _ _ Ha) as Hf.
  destruct (np_round_cases q') as [-> | (-> & E' & O')].
  - destruct (np_round_cases q) as [-> | (-> & _ & _)]; lia.
  - destruct (Z.eq_dec (Qfloor (q + (1 # 2))) (Qfloor (q' + (1 # 2))))
      as [Efl | Nfl].
    + assert (Eq : (q + (1 # 2) == inject_Z (Qfloor (q + (1 # 2))))%Q).
      { apply Qle_antisym.
        - rewrite Efl, <- E'. exact Ha.
        - apply Qfloor_le. }
      unfold np_round.
      apply Qeq_bool_iff in Eq. rewrite Eq, Efl, O'. cbn. lia.
    + destruct (np_round_cases q) as [-> | (-> & _ & _)]; lia.
Qed.

Lemma Qdiv_le_compat a b dt : (0 < dt)%Q -> (a <= b)%Q -> (a / dt <= b / dt)%Q.
Proof.
  intros Hdt Hab. unfold Qdiv. apply Qmult_le_compat_r; [assumption|].
  apply Qinv_le_0_compat. now apply Qlt_le_weak.
Qed.

Lemma frame_start_nonneg nt dt :
  (0 < dt)%Q -> (0 <= onset nt)%Q -> 0 <= frame_start_of nt dt.
Proof.
  intros Hdt Ho. apply np_round_nonneg.
  apply Qle_shift_div_l; [assumption|]. now rewrite Qmult_0_l.
Qed.

Lemma frame_start_le_end nt dt :
  (0 < dt)%Q -> (0 <= duration nt)%Q ->
  frame_start_of nt dt <= frame_end_of nt dt.
Proof.
  intros Hdt Hd. apply np_round_le. apply Qdiv_le_compat; [assumption|].
  rewrite <- (Qplus_0_r (onset nt)) at 1. now apply Qplus_le_r.
Qed.

Lemma label_of_piano nt :
  note_ok nt -> 0 <= label_of nt false < 88.
Proof. intros (_ & _ & Hp). unfold label_of. lia. Qed.

Lemma label_of_chroma nt : 0 <= label_of nt true < 12.
Proof. unfold label_of. apply Z.mod_pos_bound. lia. Qed.

(** ** Ground truth from MIDI *)

Lemma cell_zeros {A} (zero : A) n m r c :
  cell zero (mk_ndarray [n; m] (repeat zero (n * m))) r c = zero.
Proof. unfold cell. cbn [shape data nth]. apply nth_repeat. Qed.

Lemma zeros_is_matrix {A} (zero : A) n m :
  is_matrix (mk_ndarray [n; m] (repeat zero (n * m))) n m.
Proof. split; [reflexivity | apply repeat_length]. Qed.

Lemma label_in_columns nt is_chroma :
  note_ok nt ->
  0 <= label_of nt is_chroma < Z.of_nat (label_columns is_chroma)
  /\ 0 <= label_of nt is_chroma < 88.
Proof.
  intros Hn. destruct is_chroma; unfold label_columns.
  - pose proof (label_of_chroma nt). lia.
  - pose proof (label_of_piano nt Hn). lia.
Qed.

(** The loop over the notes, from any pair of matrices: it never raises on
    well-formed notes, and marks exactly the cells the notes cover. *)
Lemma midi_to_groundtruth_loop dt is_chroma n notes :
  (0 < dt)%Q -> Forall note_ok notes ->
  forall g0 o0,
    is_matrix g0 n (label_columns is_chroma) -> is_matrix o0 n 88 ->
    exists g o,
      for_each (midi_to_groundtruth_note dt is_chroma) (g0, o0) notes
      = Ok (g, o)
      /\ is_matrix g n (label_columns is_chroma) /\ is_matrix o n 88
      /\ (forall r c, (r < n)%nat -> (c < label_columns is_chroma)%nat ->
            cell 0 g r c
            = if existsb (in_frames dt is_chroma r c) notes
              then 1 else cell 0 g0 r c)
      /\ (forall r c, (r < n)%nat -> (c < 88)%nat ->
            cell 0 o r c
            = if existsb (in_onset dt is_chroma r c) notes
              then 1 else cell 0 o0 r c).
Proof.
  intros Hdt Hnotes.
  induction Hnotes as [|nt notes Hnt _ IH]; intros g0 o0 Hg Ho.
  - exists g0, o0. cbn. repeat split; try apply Hg; try apply Ho; reflexivity.
  - destruct Hnt as (Hon & Hdur & Hp).
    pose proof (frame_start_nonneg nt dt Hdt Hon) as Hfs.
    pose proof (frame_start_le_end nt dt Hdt Hdur) as Hfe.
    destruct (label_in_columns nt is_chroma (conj Hon (conj Hdur Hp)))
      as [Hl1 Hl2].
    destruct (setitem_rows_col_spec 0 g0 n _ (frame_start_of nt dt)
                (frame_end_of nt dt) (label_of nt is_chroma) 1 Hg)
      as (g1 & Eg1 & Hg1 & Cg1); try lia.
    assert (Hstep : exists o1,
               midi_to_groundtruth_note dt is_chroma (g0, o0) nt = Ok (g1, o1)
               /\ is_matrix o1 n 88
               /\ forall r c, (r < n)%nat -> (c < 88)%nat ->
                    cell 0 o1 r c
                    = if in_onset dt is_chroma r c nt then 1
                      else cell 0 o0 r c).
    { unfold midi_to_groundtruth_note. rewrite Eg1. cbn [bind].
      destruct (frame_start_of nt dt + 2 <=? frame_end_of nt dt) eqn:Eon.
      - destruct (setitem_rows_col_spec 0 o0 n _ (frame_start_of nt dt)
                    (frame_start_of nt dt + 2) (label_of nt is_chroma) 1 Ho)
          as (o1 & Eo1 & Ho1 & Co1); try lia.
        exists o1. rewrite Eo1. cbn [bind].
        split; [reflexivity|]. split; [assumption|].
        intros r c Hr Hc. rewrite (Co1 r c Hr Hc).
        unfold in_onset. rewrite Eon. reflexivity.
      - exists o0. split; [reflexivity|]. split; [assumption|].
        intros r c _ _. unfold in_onset. rewrite Eon. reflexivity. }
    destruct Hstep as (o1 & Estep & Ho1 & Co1).
    destruct (IH g1 o1 Hg1 Ho1) as (g & o & Eloop & Hg' & Ho' & Cg & Co).
    exists g, o. cbn [for_each]. rewrite Estep. cbn [bind].
    split; [exact Eloop|]. split; [assumption|]. split; [assumption|].
    split.
    + intros r c Hr Hc. rewrite (Cg r c Hr Hc), (Cg1 r c Hr Hc).
      cbn [existsb]. fold (in_frames dt is_chroma r c nt).
      destruct (in_frames dt is_chroma r c nt), (existsb _ notes); reflexivity.
    + intros r c Hr Hc. rewrite (Co r c Hr Hc), (Co1 r c Hr Hc).
      cbn [existsb].
      destruct (in_onset dt is_chroma r c nt), (existsb _ notes); reflexivity.
Qed.

(** [midi_to_groundtruth] on well-formed notes: both matrices come back, with
    a one exactly in the cells some note covers. *)
Lemma midi_to_groundtruth_cells notes dt n_frames is_chroma :
  (0 < dt)%Q -> 0 <= n_frames -> Forall note_ok notes ->
  exists g o,
    midi_to_groundtruth notes dt n_frames is_chroma = Ok (g, o)
    /\ is_matrix g (Z.to_nat n_frames) (label_columns is_chroma)
    /\ is_matrix o (Z.to_nat n_frames) 88
    /\ (forall r c, (r < Z.to_nat n_frames)%nat ->
                    (c < label_columns is_chroma)%nat ->
          cell 0 g r c
          = if existsb (in_frames dt is_chroma r c) notes then 1 else 0)
    /\ (forall r c, (r < Z.to_nat n_frames)%nat -> (c < 88)%nat ->
          cell 0 o r c
          = if existsb (in_onset dt is_chroma r c) notes then 1 else 0).
Proof.
  intros Hdt Hn Hnotes. unfold midi_to_groundtruth.
  rewrite np_zeros_2d by (destruct is_chroma; lia). cbn [bind].
  rewrite np_zeros_2d by lia. cbn [bind].
  replace (Z.to_nat (if is_chroma then 12 else 88))
    with (label_columns is_chroma) by (destruct is_chroma; reflexivity).
  change (Z.to_nat 88) with 88%nat.
  destruct (midi_to_groundtruth_loop dt is_chroma (Z.to_nat n_frames) notes
              Hdt Hnotes _ _
              (zeros_is_matrix 0 (Z.to_nat n_frames) (label_columns is_chroma))
              (zeros_is_matrix 0 (Z.to_nat n_frames) 88))
    as (g & o & E & Hg & Ho & Cg & Co).
  exists g, o. split; [exact E|]. split; [assumption|]. split; [assumption|].
  split.
  - intros r c Hr Hc. rewrite (Cg r c Hr Hc), cell_zeros. reflexivity.
  - intros r c Hr Hc. rewrite (Co r c Hr Hc), cell_zeros. reflexivity.
Qed.











Ltac q_decide := unfold Qlt, Qle; cbn; lia.

Lemma single_note_ok : note_ok single_note.
Proof. unfold note_ok, single_note. cbn. repeat split; try q_decide; lia. Qed.








(** ** Writing overlapping windows *)

Lemma range_nonempty lo hi :
  lo < hi -> exists rest, range lo hi = lo :: rest.
Proof.
  intros H. unfold range.
  destruct (Z.to_nat (hi - lo)) as [|k] eqn:E; [lia|].
  cbn [seq map]. rewrite Z.add_0_r. eexists. reflexivity.
Qed.

Lemma normalize_shape s s' : normalize s = Ok s' -> shape s' = shape s.
Proof.
  unfold normalize. destruct (np_max s); cbn [bind]; [|discriminate].
  now intros [= <-].
Qed.

Lemma optional_normalize_len (norm : bool) s s' :
  (if norm then normalize s else Ok s) = Ok s' -> len s' = len s.
Proof.
  destruct norm.
  - intros H. unfold len. now rewrite (normalize_shape _ _ H).
  - now intros [= <-].
Qed.

(** As soon as there is a center frame, [write_file_to_tfrecords] raises
    before it writes anything: [ground_truth] is a pair, and subscripting it
    with [(frame, :)] is a TypeError. *)
Lemma write_file_to_tfrecords_raises spectrogram notes fps norm
    context_frames w :
  context_frames < Z.of_nat (len spectrogram) - context_frames ->
  exists e,
    write_file_to_tfrecords spectrogram notes fps norm context_frames w
    = (w, Raise e)
    /\ (is_ok (midi_to_groundtruth notes (1 / fps)
                 (Z.of_nat (len spectrogram)) false) = true ->
        is_ok (if norm then normalize spectrogram else Ok spectrogram) = true ->
        e = TypeError).
Proof.
  intros Hrange. unfold write_file_to_tfrecords, wbind, wlift.
  destruct (midi_to_groundtruth _ _ _ _) as [gt|e].
  2:{ exists e. split; [reflexivity | discriminate]. }
  destruct (if norm then normalize spectrogram else Ok spectrogram)
    as [s'|e] eqn:En.
  2:{ exists e. split; [reflexivity | intros _; discriminate]. }
  rewrite (optional_normalize_len _ _ _ En).
  destruct (range_nonempty _ _ Hrange) as (rest & ->).
  exists TypeError. split; reflexivity.
Qed.

(** C1: on a spectrogram of 28 frames with context_frames = 5 the code
    writes no record at all and returns no count: [midi_to_groundtruth]
    returns the pair (frame matrix, onset matrix), the whole pair is bound
    to [ground_truth], and [ground_truth[frame, :]] raises TypeError at the
    first center frame, where 18 records are expected. *)
Theorem write_file_to_tfrecords_28_frames :
  write_file_to_tfrecords (flat_spectrogram 28 229)
    [mk_note 0 60 (1 # 10) 100 0] 100 false 5 []
  = ([], Raise TypeError).
Proof.
  destruct (write_file_to_tfrecords_raises (flat_spectrogram 28 229)
              [mk_note 0 60 (1 # 10) 100 0] 100 false 5 [])
    as (e & E & He).
  - cbn. lia.
  - rewrite E. rewrite He; [reflexivity | | reflexivity].
    vm_compute. reflexivity.
Qed.

(** ** Note activations *)

(** C9, as the code has it: a call with use_rnn = False never returns
    normally.  When the ground truth, the optional normalization and the
    sliding-window activation all complete, the failure is the unbound name
    [onset_activation] at the return statement; otherwise the error of the
    earlier step comes out.  A normal return therefore needs use_rnn. *)
Theorem get_note_activation_needs_rnn :
  forall spectrogram notes fps norm context_frames predictor n_onset_plus,
    is_ok (get_note_activation spectrogram notes fps norm context_frames
             predictor n_onset_plus false) = false
    /\ (forall s',
          is_ok (midi_to_triple_groundtruth notes (1 / fps)
                   (Z.of_nat (len spectrogram)) n_onset_plus) = true ->
          (if norm then normalize spectrogram else Ok spectrogram) = Ok s' ->
          is_ok (spectrogram_to_note_activation s' context_frames predictor)
          = true ->
          get_note_activation spectrogram notes fps norm context_frames
            predictor n_onset_plus false
          = Raise (UnboundLocalError "onset_activation"))
    /\ (forall use_rnn,
          is_ok (get_note_activation spectrogram notes fps norm context_frames
                   predictor n_onset_plus use_rnn) = true ->
          use_rnn = true).
Proof.
  intros spectrogram notes fps norm context_frames predictor n_onset_plus.
  assert (H : is_ok (get_note_activation spectrogram notes fps norm
                       context_frames predictor n_onset_plus false) = false).
  { unfold get_note_activation.
    destruct (midi_to_triple_groundtruth _ _ _ _); [|reflexivity].
    cbn [bind].
    destruct (if norm then normalize spectrogram else Ok spectrogram);
      [|reflexivity].
    cbn [bind].
    destruct (spectrogram_to_note_activation _ _ _); reflexivity. }
  split; [exact H|]. split.
  - intros s' Hgt Hnorm Hact. unfold get_note_activation.
    destruct (midi_to_triple_groundtruth _ _ _ _); [|discriminate].
    cbn [bind]. rewrite Hnorm. cbn [bind].
    destruct (spectrogram_to_note_activation _ _ _); [|discriminate].
    reflexivity.
  - intros [|] Hok; [reflexivity|]. rewrite H in Hok. discriminate.
Qed.

Lemma get_note_activation_needs_rnn_witness :
  get_note_activation (flat_spectrogram 3 2) [] 100 true 5
    (zero_predictor 2000) 3 false
  = Raise (UnboundLocalError "onset_activation")
  /\ is_ok (get_note_activation (flat_spectrogram 3 2) [] 100 true 5
              (zero_predictor 2000) 3 true) = true.
Proof.
  destruct (get_note_activation_needs_rnn (flat_spectrogram 3 2) [] 100 true 5
              (zero_predictor 2000) 3) as (_ & Hunbound & Hrnn).
  assert (Hok : is_ok (get_note_activation (flat_spectrogram 3 2) [] 100 true
                         5 (zero_predictor 2000) 3 true) = true)
    by (vm_compute; reflexivity).
  split.
  - apply (Hunbound (mk_ndarray [3; 2]%nat (repeat (2 # 2)%Q 6)));
      vm_compute; reflexivity.
  - pose proof (Hrnn true Hok) as _. exact Hok.
Defined.

(** C9, counterexample to the specification as worded: with
    use_rnn = False and a note that ends on the last frame, the call fails
    in the ground-truth step with IndexError; it never reaches the return
    statement, so the failure is not the unbound name. *)
Lemma get_note_activation_other_error :
  get_note_activation (flat_spectrogram 50 2) [single_note] 100 false 5
    (zero_predictor 11) 3 false
  = Raise IndexError
  /\ get_note_activation (flat_spectrogram 50 2) [single_note] 100 false 5
       (zero_predictor 11) 3 false
     <> Raise (UnboundLocalError "onset_activation").
Proof.
  assert (E : get_note_activation (flat_spectrogram 50 2) [single_note] 100
                false 5 (zero_predictor 11) 3 false = Raise IndexError)
    by (vm_compute; reflexivity).
  split; [exact E|]. rewrite E. discriminate.
Qed.

(** ** The model function *)



(** ** Class weights *)

Lemma in_combine_seq {A} (l : list A) (d : A) : forall s k x,
  In (k, x) (combine (seq s (length l)) l)
  <-> (s <= k < s + length l)%nat /\ nth (k - s) l d = x.
Proof.
  induction l as [|y l IH]; intros s k x; cbn [length seq combine In].
  - split; [tauto | lia].
  - rewrite IH. split.
    + intros [[= <- <-] | [Hk Hx]].
      * rewrite Nat.sub_diag. split; [lia | reflexivity].
      * split; [lia|]. replace (k - s)%nat with (S (k - S s)) by lia.
        exact Hx.
    + intros [Hk Hx]. destruct (Nat.eq_dec k s) as [-> | Hne].
      * left. rewrite Nat.sub_diag in Hx. cbn in Hx. now subst.
      * right. split; [lia|].
        replace (k - s)%nat with (S (k - S s)) in Hx by lia. exact Hx.
Qed.

Lemma in_positions_of_ones l k :
  In k (positions_of_ones l)
  <-> (k < length l)%nat /\ Qeq_bool (nth k l 0%Q) 1 = true.
Proof.
  unfold positions_of_ones. rewrite in_map_iff. split.
  - intros ([k' x] & Hk & Hin). cbn in Hk. subst k'.
    apply filter_In in Hin as [Hin Hx]. cbn in Hx.
    apply (in_combine_seq l 0%Q) in Hin as [Hk Hn].
    rewrite Nat.sub_0_r in Hn. subst x. split; [lia | exact Hx].
  - intros [Hk Hx]. exists (k, nth k l 0%Q). split; [reflexivity|].
    apply filter_In. split; [|exact Hx].
    apply (in_combine_seq l 0%Q). rewrite Nat.sub_0_r.
    split; [lia | reflexivity].
Qed.

Lemma existsb_eqb_in k l : existsb (Nat.eqb k) l = true <-> In k l.
Proof.
  rewrite existsb_exists. split.
  - intros (x & Hin & Hx). apply Nat.eqb_eq in Hx. now subst.
  - intros Hin. exists k. split; [assumption | apply Nat.eqb_refl].
Qed.

(** C7, as the code has it: on a label matrix the weights come back with the
    same shape; a cell whose label is one weighs 2.0, any other cell of a
    row that contains a one weighs 1.0, and the cells of rows without any
    one weigh the default 0.25. *)
Theorem weights_from_labels_by_row :
  forall labels n m,
    is_matrix labels n m ->
    exists w,
      weights_from_labels labels = Ok w /\ is_matrix w n m
      /\ forall r c, (r < n)%nat -> (c < m)%nat ->
           ((cell 0 labels r c == 1)%Q -> cell 0%Q w r c = 2%Q)
           /\ (~ (cell 0 labels r c == 1)%Q ->
               (exists c', (c' < m)%nat /\ (cell 0 labels r c' == 1)%Q) ->
               cell 0%Q w r c = 1%Q)
           /\ ((forall c', (c' < m)%nat -> ~ (cell 0 labels r c' == 1)%Q) ->
               cell 0%Q w r c = (1 # 4)%Q).
Proof.
  intros labels n m [Hs Hl]. unfold weights_from_labels. rewrite Hs.
  cbn [map]. rewrite np_zeros_2d by lia. cbn [bind data].
  rewrite !Nat2Z.id.
  assert (Hstride : stride labels = m)
    by (unfold stride; rewrite Hs; cbn; lia).
  rewrite Hstride.
  eexists. split; [reflexivity|]. split.
  { split; [reflexivity|]. cbn [data].
    now rewrite length_map, !mapi_length, repeat_length. }
  intros r c Hr Hc.
  pose proof (cell_index_lt r c n m Hr Hc) as Hk.
  set (k := (r * m + c)%nat) in *.
  assert (Hcell : forall c',
             cell 0%Q labels r c' = nth (r * m + c') (data labels) 0%Q)
    by (intros c'; unfold cell; now rewrite Hs).
  unfold cell at 2 5 7. cbn [shape data nth]. fold k.
  rewrite (nth_map_lt _ _ _ 0%Q 0%Q)
    by (now rewrite !mapi_length, repeat_length).
  rewrite (mapi_nth _ _ _ 0%Q 0%Q) by (now rewrite mapi_length, repeat_length).
  rewrite (mapi_nth _ _ _ 0%Q 0%Q) by (now rewrite repeat_length).
  rewrite nth_repeat.
  assert (Hdiv : (k / m = r)%nat) by (apply cell_index_div; assumption).
  rewrite Hdiv.
  split; [|split].
  - intros H1. rewrite Hcell in H1. fold k in H1.
    replace (existsb (Nat.eqb k) (positions_of_ones (data labels))) with true.
    + reflexivity.
    + symmetry. apply existsb_eqb_in, in_positions_of_ones.
      split; [lia | now apply Qeq_bool_iff].
  - intros H0 (c' & Hc' & H1). rewrite Hcell in H0, H1. fold k in H0.
    replace (existsb (Nat.eqb k) (positions_of_ones (data labels))) with false.
    + replace (existsb (Nat.eqb r)
                 (map (fun k0 => (k0 / m)%nat)
                      (positions_of_ones (data labels)))) with true.
      * reflexivity.
      * symmetry. apply existsb_eqb_in, in_map_iff.
        exists (r * m + c')%nat. split; [now apply cell_index_div|].
        apply in_positions_of_ones. split.
        -- rewrite Hl. now apply cell_index_lt.
        -- now apply Qeq_bool_iff.
    + symmetry. apply not_true_is_false. intros H.
      apply existsb_eqb_in, in_positions_of_ones in H as [_ H].
      apply H0. now apply Qeq_bool_iff.
  - intros Hnone.
    replace (existsb (Nat.eqb k) (positions_of_ones (data labels))) with false.
    + replace (existsb (Nat.eqb r)
                 (map (fun k0 => (k0 / m)%nat)
                      (positions_of_ones (data labels)))) with false.
      * reflexivity.
      * symmetry. apply not_true_is_false. intros H.
        apply existsb_eqb_in, in_map_iff in H as (k' & Hk' & Hin).
        apply in_positions_of_ones in Hin as [Hlt H1].
        apply (Hnone (k' mod m)%nat).
        -- apply Nat.mod_upper_bound. lia.
        -- rewrite Hcell. apply Qeq_bool_iff.
           replace (r * m + k' mod m)%nat with k'; [exact H1|].
           rewrite <- Hk'. rewrite (Nat.div_mod_eq k' m) at 1. lia.
    + symmetry. apply not_true_is_false. intros H.
      apply existsb_eqb_in, in_positions_of_ones in H as [_ H].
      apply (Hnone c Hc). rewrite Hcell. fold k. now apply Qeq_bool_iff.
Qed.

Lemma weights_from_labels_by_row_witness :
  exists w,
    weights_from_labels (mk_ndarray [2; 2]%nat [1; 0; 0; 0]%Q) = Ok w
    /\ cell 0%Q w 0 0 = 2%Q /\ cell 0%Q w 0 1 = 1%Q
    /\ cell 0%Q w 1 0 = (1 # 4)%Q.
Proof.
  destruct (weights_from_labels_by_row
              (mk_ndarray [2; 2]%nat [1; 0; 0; 0]%Q) 2 2)
    as (w & E & _ & C).
  - split; reflexivity.
  - exists w. split; [exact E|]. split; [|split].
    + apply (C 0 0)%nat; [lia | lia | reflexivity].
    + apply (C 0 1)%nat; [lia | lia | cbn; intros H; discriminate H |].
      exists 0%nat. split; [lia | reflexivity].
    + apply (C 1 0)%nat; [lia | lia |].
      intros c' Hc'. destruct c' as [|[|c']]; try lia;
        cbn; intros H; discriminate H.
Defined.

(** C7, counterexample to the specification as worded: in the one-row
    label matrix [[1, 0]] the second label is not one, and its weight is
    1.0, not the default 0.25. *)
Lemma weights_from_labels_not_default :
  exists w,
    weights_from_labels (mk_ndarray [1; 2]%nat [1; 0]%Q) = Ok w
    /\ ~ (cell 0 (mk_ndarray [1; 2]%nat [1; 0]%Q) 0 1 == 1)%Q
    /\ cell 0%Q w 0 1 = 1%Q
    /\ ~ (cell 0%Q w 0 1 == 1 # 4)%Q.
Proof.
  eexists. split; [vm_compute; reflexivity|].
  split; [cbn; intros H; discriminate H|].
  split; [reflexivity|]. cbn. intros H; discriminate H.
Qed.

(** ** Chunks and non-overlapping records *)

Lemma chunk_count_lt f c i :
  (0 < c)%nat -> (i < chunk_count f c)%nat <-> (i * c < f)%nat.
Proof.
  intros Hc. unfold chunk_count. split.
  - intros Hi. destruct (Nat.lt_ge_cases (i * c) f) as [|Hge]; [assumption|].
    exfalso. assert (((f + c - 1) / c < i + 1)%nat); [|lia].
    apply Nat.Div0.div_lt_upper_bound. nia.
  - intros Hi. apply Nat.lt_le_trans with ((i + 1))%nat; [lia|].
    apply Nat.div_le_lower_bound; [lia | nia].
Qed.

Lemma chunk_count_positive f c :
  (0 < c)%nat -> (0 < f)%nat -> (0 < chunk_count f c)%nat.
Proof. intros Hc Hf. apply chunk_count_lt; [assumption | lia]. Qed.

Lemma chunk_count_Z f c :
  0 < c ->
  Z.to_nat ((Z.of_nat f + c - 1) / c) = chunk_count f (Z.to_nat c).
Proof.
  intros Hc. unfold chunk_count.
  rewrite <- (Z2Nat.id c) at 1 2 by lia.
  replace (Z.of_nat f + Z.of_nat (Z.to_nat c) - 1)
    with (Z.of_nat (f + Z.to_nat c - 1)) by lia.
  rewrite <- Nat2Z.inj_div. apply Nat2Z.id.
Qed.

Lemma full_chunk_rows {A} (a : ndarray A) c i :
  (0 < c)%nat -> (i + 1 < chunk_count (len a) c)%nat -> real_rows a c i = c.
Proof.
  intros Hc Hi. apply chunk_count_lt in Hi; [|assumption].
  unfold real_rows. apply Nat.min_l. nia.
Qed.

Lemma stride_matrix {A} (a : ndarray A) n m : is_matrix a n m -> stride a = m.
Proof. intros [Hs _]. unfold stride. rewrite Hs. cbn. lia. Qed.

Lemma len_matrix {A} (a : ndarray A) n m : is_matrix a n m -> len a = n.
Proof. intros [Hs _]. unfold len. now rewrite Hs. Qed.

(** A slice of [c] rows starting at row [i*c] is the [i]-th raw chunk. *)
Lemma getslice_raw_chunk {A} (a : ndarray A) n m c i :
  is_matrix a n m -> 0 < c -> (i * Z.to_nat c < n)%nat ->
  getslice a (Z.of_nat i * c) (Z.of_nat i * c + c) = raw_chunk a (Z.to_nat c) i.
Proof.
  intros Ha Hc Hi. unfold getslice, raw_chunk, rows_between, real_rows.
  rewrite (len_matrix a n m Ha).
  rewrite !slice_bound_nonneg by nia.
  destruct Ha as [Hs Hl]. rewrite Hs. cbn [tl].
  replace (Z.to_nat (Z.of_nat i * c)) with (i * Z.to_nat c)%nat by nia.
  replace (Z.to_nat (Z.of_nat i * c + c)) with (i * Z.to_nat c + Z.to_nat c)%nat
    by nia.
  replace (Nat.min (i * Z.to_nat c) n) with (i * Z.to_nat c)%nat by lia.
  replace (Nat.min (i * Z.to_nat c + Z.to_nat c) n - i * Z.to_nat c)%nat
    with (Nat.min (Z.to_nat c) (n - i * Z.to_nat c)) by lia.
  replace (i * Z.to_nat c + Nat.min (Z.to_nat c) (n - i * Z.to_nat c)
           - i * Z.to_nat c)%nat
    with (Nat.min (Z.to_nat c) (n - i * Z.to_nat c)) by lia.
  unfold stride. rewrite Hs. cbn [tl prod_shape fold_right].
  rewrite Nat.mul_1_r. reflexivity.
Qed.

(** [chunks] on a matrix: the consecutive raw chunks, one per started block
    of [length] rows; the last one keeps the rows that are left. *)
Lemma chunks_matrix {A} (a : ndarray A) n m c :
  is_matrix a n m -> 0 < c ->
  chunks a c
  = Ok (map (raw_chunk a (Z.to_nat c)) (seq 0 (chunk_count n (Z.to_nat c)))).
Proof.
  intros Ha Hc. unfold chunks.
  replace (c =? 0) with false by (symmetry; apply Z.eqb_neq; lia).
  replace (c <? 0) with false by (symmetry; apply Z.ltb_ge; lia).
  f_equal. unfold range_step. rewrite map_map.
  rewrite (len_matrix a n m Ha), chunk_count_Z by assumption.
  apply map_ext_in. intros i Hi. apply in_seq in Hi.
  apply (getslice_raw_chunk a n m); try assumption.
  apply chunk_count_lt; lia.
Qed.

Lemma raw_chunk_full {A} (zero : A) (a : ndarray A) c i :
  real_rows a c i = c -> raw_chunk a c i = padded_chunk zero a c i.
Proof.
  intros Hr. unfold padded_chunk, raw_chunk. rewrite Hr, Nat.sub_diag.
  cbn [Nat.mul repeat data]. now rewrite app_nil_r.
Qed.

(** Padding the last element of a list of chunks. *)
Lemma pad_last_snoc {A} (zero : A) l x rows m c :
  shape x = [rows; m] -> (rows <= Z.to_nat c)%nat -> 0 <= c ->
  pad_last zero (l ++ [x]) c
  = Ok (l ++ [mk_ndarray [Z.to_nat c; m]
                (data x ++ repeat zero ((Z.to_nat c - rows) * m))]).
Proof.
  intros Hs Hrows Hc. unfold pad_last. rewrite rev_app_distr. cbn [rev app].
  unfold shape_at. rewrite Hs. cbn [nth_error bind].
  rewrite np_zeros_2d by lia. cbn [bind]. rewrite Nat2Z.id.
  unfold np_append0. rewrite Hs. cbn [shape data].
  destruct (list_eq_dec Nat.eq_dec [m] [m]) as [_|Hne]; [|congruence].
  cbn [bind]. rewrite removelast_last.
  replace (rows + Z.to_nat (c - Z.of_nat rows))%nat with (Z.to_nat c) by lia.
  replace (Z.to_nat (c - Z.of_nat rows)) with (Z.to_nat c - rows)%nat by lia.
  reflexivity.
Qed.

(** Padding the chunks of a matrix: every chunk but the last is already full
    and stays as it is, the last one is filled up with zero rows. *)
Lemma pad_last_chunks {A} (zero : A) (a : ndarray A) n m c :
  is_matrix a n m -> 0 < c -> (0 < n)%nat ->
  pad_last zero (map (raw_chunk a (Z.to_nat c))
                     (seq 0 (chunk_count n (Z.to_nat c)))) c
  = Ok (map (padded_chunk zero a (Z.to_nat c))
            (seq 0 (chunk_count n (Z.to_nat c)))).
Proof.
  intros Ha Hc Hn.
  pose proof (chunk_count_positive n (Z.to_nat c) ltac:(lia) Hn) as Hk.
  destruct (chunk_count n (Z.to_nat c)) as [|k'] eqn:Ek; [lia|].
  rewrite seq_S, !map_app. cbn [map Nat.add].
  rewrite (pad_last_snoc zero _ _ (real_rows a (Z.to_nat c) k') (stride a));
    [| reflexivity | unfold real_rows; lia | lia].
  f_equal. f_equal.
  apply map_ext_in. intros i Hi. apply in_seq in Hi.
  apply raw_chunk_full. apply full_chunk_rows; [lia|].
  rewrite (len_matrix a n m Ha), Ek. lia.
Qed.

Lemma combine_map {X A B} (f : X -> A) (g : X -> B) l :
  combine (map f l) (map g l) = map (fun x => (f x, g x)) l.
Proof. induction l as [|x l IH]; cbn; [reflexivity | now rewrite IH]. Qed.

(** A loop whose body writes one record and counts it. *)
Lemma wfor_writes {X} (body : Z -> X -> writer_m Z) (mk : X -> example) :
  (forall t x w, body t x w = (w ++ [mk x], Ok (t + 1))) ->
  forall xs t w,
    wfor body t xs w = (w ++ map mk xs, Ok (t + Z.of_nat (length xs))).
Proof.
  intros Hbody. induction xs as [|x xs IH]; intros t w.
  - cbn. now rewrite app_nil_r, Z.add_0_r.
  - cbn [wfor]. unfold wbind at 1. rewrite Hbody, IH.
    cbn [map length]. rewrite <- app_assoc. cbn [app]. f_equal. f_equal. lia.
Qed.

Lemma optional_normalize_matrix (norm : bool) s n m :
  is_matrix s n m -> (0 < n * m)%nat ->
  exists s', (if norm then normalize s else Ok s) = Ok s' /\ is_matrix s' n m.
Proof.
  intros [Hs Hl] Hpos. destruct norm.
  - unfold normalize, np_max.
    destruct (data s) as [|x xs] eqn:E; [cbn in Hl; lia|].
    cbn [bind]. eexists. split; [reflexivity|].
    split; [exact Hs | cbn [data]; now rewrite length_map].
  - exists s. split; [reflexivity | now split].
Qed.

Lemma inverse_fps_positive fps : (0 < fps)%Q -> (0 < 1 / fps)%Q.
Proof.
  intros H. unfold Qdiv. rewrite Qmult_1_l. now apply Qinv_lt_0_compat.
Qed.

(** C6: [chunks] cuts a non-empty spectrogram of F frames into the
    consecutive slices of C rows, the last one keeping the rows that are
    left, unpadded; [write_file_to_non_overlap_tfrecords] cuts spectrogram,
    frame ground truth and onset ground truth that way, fills up only the
    last chunk of each with zero rows, writes one record per chunk, that is
    ceil(F/C) records, and returns that count.  With 22 frames and C = 10
    there are 3 records, the last made of 2 real rows and 8 zero rows. *)
Theorem non_overlap_records_per_chunk :
  (forall spectrogram notes fps (norm : bool) context_frames F B,
     is_matrix spectrogram F B -> (0 < F)%nat -> (0 < B)%nat ->
     0 < context_frames -> (0 < fps)%Q -> Forall note_ok notes ->
     let c := Z.to_nat context_frames in
     let k := chunk_count F c in
     chunks spectrogram context_frames
     = Ok (map (raw_chunk spectrogram c) (seq 0 k))
     /\ (forall i, (i + 1 < k)%nat -> real_rows spectrogram c i = c)
     /\ (0 < real_rows spectrogram c (k - 1) <= c)%nat
     /\ exists s' g o,
          (if norm then normalize spectrogram else Ok spectrogram) = Ok s'
          /\ midi_to_groundtruth notes (1 / fps) (Z.of_nat F) false
             = Ok (g, o)
          /\ write_file_to_non_overlap_tfrecords spectrogram notes fps norm
               context_frames []
             = (map (fun i =>
                       features_to_non_overlap_multi_head_example
                         (padded_chunk 0%Q s' c i) (padded_chunk 0 g c i)
                         (padded_chunk 0 o c i))
                    (seq 0 k),
                Ok (Z.of_nat k)))
  /\
  (exists records label onset,
     write_file_to_non_overlap_tfrecords (flat_spectrogram 22 229)
       [single_note] 100 false 10 []
     = (records, Ok 3)
     /\ length records = 3%nat
     /\ nth 2 records []
        = [("label"%string, int64_list label);
           ("onset"%string, int64_list onset);
           ("spec"%string,
            float_list (repeat (1 # 2)%Q (2 * 229)
                        ++ repeat 0%Q (8 * 229)))]).
Proof.
  split.
  - intros spectrogram notes fps norm context_frames F B Hs HF HB Hc Hfps
      Hnotes c k.
    assert (Hc' : (0 < c)%nat) by (unfold c; lia).
    split; [now apply (chunks_matrix spectrogram F B)|].
    split.
    { intros i Hi. apply full_chunk_rows; [assumption|].
      now rewrite (len_matrix _ _ _ Hs). }
    split.
    { pose proof (chunk_count_positive F c Hc' HF) as Hk. fold k in Hk.
      assert (Hlast : ((k - 1) * c < F)%nat)
        by (apply chunk_count_lt; [assumption | fold k; lia]).
      unfold real_rows. rewrite (len_matrix _ _ _ Hs). lia. }
    destruct (optional_normalize_matrix norm spectrogram F B Hs ltac:(nia))
      as (s' & En & Hs').
    destruct (midi_to_groundtruth_cells notes (1 / fps) (Z.of_nat F) false
                (inverse_fps_positive fps Hfps) ltac:(lia) Hnotes)
      as (g & o & Eg & Hg & Ho & _ & _).
    rewrite Nat2Z.id in Hg, Ho. unfold label_columns in Hg.
    exists s', g, o. split; [exact En|]. split; [exact Eg|].
    unfold write_file_to_non_overlap_tfrecords, wbind at 1, wlift at 1.
    rewrite (len_matrix _ _ _ Hs), Eg.
    unfold wbind at 1, wlift at 1. rewrite En.
    unfold wbind at 1, wlift at 1.
    rewrite (chunks_matrix s' F B context_frames Hs' Hc).
    unfold wbind at 1, wlift at 1.
    rewrite (chunks_matrix g F 88 context_frames Hg Hc).
    unfold wbind at 1, wlift at 1.
    rewrite (chunks_matrix o F 88 context_frames Ho Hc).
    unfold wbind at 1, wlift at 1.
    rewrite (pad_last_chunks 0%Q s' F B context_frames Hs' Hc HF).
    unfold wbind at 1, wlift at 1.
    rewrite (pad_last_chunks 0 g F 88 context_frames Hg Hc HF).
    unfold wbind at 1, wlift at 1.
    rewrite (pad_last_chunks 0 o F 88 context_frames Ho Hc HF).
    fold c. fold k. unfold zip3. rewrite !combine_map.
    rewrite (wfor_writes _
               (fun p : ndarray Q * ndarray Z * ndarray Z =>
                  let '(ex, gt, onset) := p in
                  features_to_non_overlap_multi_head_example ex gt onset)).
    + cbn [app]. rewrite map_map, !length_map, length_seq. reflexivity.
    + intros t [[ex gt] onset] w. reflexivity.
  - do 3 eexists. split; [vm_compute; reflexivity|].
    split; reflexivity.
Qed.

Lemma non_overlap_records_per_chunk_witness :
  exists s' g o,
    write_file_to_non_overlap_tfrecords (flat_spectrogram 22 2)
      [single_note] 100 true 10 []
    = (map (fun i =>
              features_to_non_overlap_multi_head_example
                (padded_chunk 0%Q s' 10 i) (padded_chunk 0 g 10 i)
                (padded_chunk 0 o 10 i))
           (seq 0 3),
       Ok 3).
Proof.
  destruct (proj1 non_overlap_records_per_chunk (flat_spectrogram 22 2)
              [single_note] 100%Q true 10 22%nat 2%nat)
    as (_ & _ & _ & s' & g & o & _ & _ & E).
  - split; reflexivity.
  - lia.
  - lia.
  - lia.
  - q_decide.
  - repeat constructor; cbn; try q_decide; lia.
  - exists s', g, o. exact E.
Defined.

(** ** The loss of the recurrent path *)

(** What [conv_net_init] computes outside PREDICT mode with use_rnn = true:
    the three loss terms are the means of [log_loss(label_frames, p1)],
    [log_loss(label_onset, p2)] and [log_loss(combined_probs, label_frames)],
    the last call with the fused probabilities in the position of the
    labels. *)
Lemma conv_net_init_rnn_loss resnet_rnn resnet fc_frame features labels mode
    clip_norm planes lf lo cc l1 l2 l3 :
  mode <> PREDICT ->
  tf_unstack1 labels = Ok planes ->
  list_index planes 0 = Ok lf -> list_index planes 1 = Ok lo ->
  tf_concat2
    (tf_sigmoid (resnet_rnn "frames"%string features (mode_eqb mode TRAIN)))
    (tf_sigmoid (resnet_rnn "onsets"%string features (mode_eqb mode TRAIN)))
  = Ok cc ->
  log_loss lf
    (tf_sigmoid (resnet_rnn "frames"%string features (mode_eqb mode TRAIN)))
    clip_norm = Ok l1 ->
  log_loss lo
    (tf_sigmoid (resnet_rnn "onsets"%string features (mode_eqb mode TRAIN)))
    clip_norm = Ok l2 ->
  log_loss (fc_frame cc) lf clip_norm = Ok l3 ->
  exists spec,
    conv_net_init resnet_rnn resnet fc_frame features labels mode clip_norm
      true = Ok spec
    /\ spec_loss spec
       = Some (0 + reduce_mean l1 + reduce_mean l2 + reduce_mean l3)%R
    /\ probabilities (spec_predictions spec) = fc_frame cc
    /\ onset_probabilities (spec_predictions spec)
       = tf_sigmoid (resnet_rnn "onsets"%string features (mode_eqb mode TRAIN)).
Proof.
  intros Hmode Hun H0 H1 Hcc Hl1 Hl2 Hl3. unfold conv_net_init.
  assert (Hp : mode_eqb mode PREDICT = false)
    by (destruct mode; [reflexivity | reflexivity | congruence]).
  rewrite Hp. cbn [negb]. rewrite Hun. cbn [bind]. rewrite H0. cbn [bind].
  rewrite H1. cbn [bind read_local]. rewrite Hcc. cbn [bind].
  rewrite Hl1. cbn [bind]. rewrite Hl2. cbn [bind]. rewrite Hl3.
  cbn [bind read_local]. eexists. repeat split; reflexivity.
Qed.

Lemma tsum_repeat x n : tsum (repeat x n) = (INR n * x)%R.
Proof.
  induction n as [|n IH].
  - cbn. lra.
  - cbn [repeat tsum fold_right]. fold (tsum (repeat x n)).
    rewrite IH, S_INR. lra.
Qed.

Lemma reduce_mean_repeat sh x n :
  (0 < n)%nat -> reduce_mean (mk_ndarray sh (repeat x n)) = x.
Proof.
  intros Hn. unfold reduce_mean. cbn [data].
  rewrite tsum_repeat, repeat_length. field.
  apply not_0_INR. lia.
Qed.

(** The two orders of the third loss term differ on a silent frame
    (label 0) with fused probability one half, whatever the epsilon. *)
Lemma swapped_log_loss_differs eps :
  (0 < eps)%R ->
  (- (1 / 2 * ln (0 + eps)) - (1 - 1 / 2) * ln (1 - 0 + eps)
   <> - (0 * ln (1 / 2 + eps)) - (1 - 0) * ln (1 - 1 / 2 + eps))%R.
Proof.
  intros He Heq.
  assert (H : ln (eps * (1 + eps)) = ln ((1 / 2 + eps) * (1 / 2 + eps))).
  { rewrite !ln_mult by lra.
    replace (0 + eps)%R with eps in Heq by lra.
    replace (1 - 0 + eps)%R with (1 + eps)%R in Heq by lra.
    replace (1 - 1 / 2 + eps)%R with (1 / 2 + eps)%R in Heq by lra.
    lra. }
  apply ln_inv in H; nra.
Qed.

Lemma map2_repeat {X Y Z'} (f : X -> Y -> Z') a b n :
  map2 f (repeat a n) (repeat b n) = repeat (f a b) n.
Proof. induction n as [|n IH]; cbn; [reflexivity | now rewrite IH]. Qed.

Lemma log_loss_constant sh a b n eps :
  log_loss (constant_tensor sh a n) (constant_tensor sh b n) eps
  = Ok (constant_tensor sh
          (- (a * ln (b + eps)) - (1 - a) * ln (1 - b + eps))%R n).
Proof.
  unfold log_loss, constant_tensor. cbn [shape data].
  destruct (list_eq_dec Nat.eq_dec sh sh) as [_|Hne]; [|congruence].
  now rewrite map2_repeat.
Qed.

Lemma tf_sigmoid_constant sh x n :
  tf_sigmoid (constant_tensor sh x n)
  = constant_tensor sh (1 / (1 + exp (- x)))%R n.
Proof. unfold tf_sigmoid, constant_tensor. cbn. now rewrite map_repeat. Qed.

Lemma unstack_two_planes x :
  tf_unstack1 (constant_tensor [1; 2; 1; 88]%nat x 176)
  = Ok [constant_tensor [1; 1; 88]%nat x 88;
        constant_tensor [1; 1; 88]%nat x 88].
Proof. vm_compute. reflexivity. Qed.

Lemma concat_two_planes x y :
  is_ok (tf_concat2 (constant_tensor [1; 1; 88]%nat x 88)
                    (constant_tensor [1; 1; 88]%nat y 88)) = true.
Proof. vm_compute. reflexivity. Qed.

(** C2 at one silent frame (all labels 0), sub-network logits 0, fused
    probabilities 1/2 and clip_norm = 1e-7, in EVAL mode with use_rnn = true:
    the model function returns a loss, and it is not the sum of the means of
    the three log-loss terms taken as (labels, predictions) on the frame and
    onset labels, the two sub-network probabilities and the fused
    probabilities of that very run, because the third call passes the fused
    probabilities as labels and the frame labels as predictions. *)
Theorem rnn_loss_third_term_swapped :
  exists spec L label_frames label_onset L',
    conv_net_init zero_logits_rnn (fun x _ => x) half_fc_frame
      (constant_tensor [1; 1; 229; 1]%nat (1 / 2)%R 229) silent_labels EVAL
      (1 / 10000000)%R true
    = Ok spec
    /\ spec_loss spec = Some L
    /\ tf_unstack1 silent_labels = Ok [label_frames; label_onset]
    /\ spec_total_loss label_frames label_onset
         (tf_sigmoid
            (zero_logits_rnn "frames"%string
               (constant_tensor [1; 1; 229; 1]%nat (1 / 2)%R 229) false))
         (onset_probabilities (spec_predictions spec))
         (probabilities (spec_predictions spec))
         (1 / 10000000)%R
       = Ok L'
    /\ L <> L'.
Proof.
  set (eps := (1 / 10000000)%R).
  set (lf := constant_tensor [1; 1; 88]%nat 0%R 88).
  set (p := constant_tensor [1; 1; 88]%nat (1 / (1 + exp (- 0)))%R 88).
  destruct (tf_concat2 p p) as [cc|e] eqn:Ecc.
  2:{ exfalso. pose proof (concat_two_planes (1 / (1 + exp (- 0)))%R
                             (1 / (1 + exp (- 0)))%R) as H.
      fold p in H. rewrite Ecc in H. discriminate. }
  destruct (conv_net_init_rnn_loss zero_logits_rnn (fun x _ => x)
              half_fc_frame (constant_tensor [1; 1; 229; 1]%nat (1 / 2)%R 229)
              silent_labels EVAL eps [lf; lf] lf lf cc
              (constant_tensor [1; 1; 88]%nat
                 (- (0 * ln (1 / (1 + exp (- 0)) + eps))
                  - (1 - 0) * ln (1 - 1 / (1 + exp (- 0)) + eps))%R 88)
              (constant_tensor [1; 1; 88]%nat
                 (- (0 * ln (1 / (1 + exp (- 0)) + eps))
                  - (1 - 0) * ln (1 - 1 / (1 + exp (- 0)) + eps))%R 88)
              (constant_tensor [1; 1; 88]%nat
                 (- (1 / 2 * ln (0 + eps))
                  - (1 - 1 / 2) * ln (1 - 0 + eps))%R 88))
    as (spec & Espec & Eloss & Eprob & Eonset).
  - discriminate.
  - apply unstack_two_planes.
  - reflexivity.
  - reflexivity.
  - unfold zero_logits_rnn. cbv beta. rewrite tf_sigmoid_constant. exact Ecc.
  - unfold zero_logits_rnn. cbv beta. rewrite tf_sigmoid_constant.
    apply log_loss_constant.
  - unfold zero_logits_rnn. cbv beta. rewrite tf_sigmoid_constant.
    apply log_loss_constant.
  - apply log_loss_constant.
  - exists spec. eexists. exists lf, lf. eexists.
    split; [exact Espec|]. split; [exact Eloss|].
    split; [apply unstack_two_planes|].
    rewrite Eprob, Eonset. unfold spec_total_loss, zero_logits_rnn, lf.
    cbv beta. unfold half_fc_frame. rewrite tf_sigmoid_constant.
    rewrite !log_loss_constant. cbn [bind].
    split; [reflexivity|].
    unfold constant_tensor. rewrite !reduce_mean_repeat by lia.
    intros H. apply (swapped_log_loss_differs eps); [unfold eps; lra | lra].
Qed.

(** ** Row counts of the chunked activations *)






(** C4 at a spectrogram whose length is a multiple of the chunk length
    (2000 frames, context_frames = 2000, a predictor that answers each chunk
    with 2000 rows): no padding is added, the accumulated frame activations
    have 1 + 2000 rows, and the slice [3 : 2000 + 3] keeps only 1998 of
    them, not the 2000 rows of the spectrogram; the onset activations, cut
    from offset 1, do have 2000 rows. *)
Theorem non_overlap_note_activation_short :
  exists note_activation onset_activation,
    spectrogram_to_non_overlap_note_activation (flat_spectrogram 2000 229)
      2000 (zero_predictor 2000)
    = Ok (note_activation, onset_activation)
    /\ len (flat_spectrogram 2000 229) = 2000%nat
    /\ shape note_activation = [1998; 88]%nat
    /\ shape onset_activation = [2000; 88]%nat.
Proof.
  destruct (spectrogram_to_non_overlap_note_activation
              (flat_spectrogram 2000 229) 2000 (zero_predictor 2000))
    as [[n o]|e] eqn:E.
  - exists n, o. split; [reflexivity|]. split; [reflexivity|].
    assert (H : option_map (fun p => (shape (fst p), shape (snd p)))
                  (match spectrogram_to_non_overlap_note_activation
                           (flat_spectrogram 2000 229) 2000
                           (zero_predictor 2000)
                   with Ok p => Some p | Raise _ => None end)
                = Some ([1998; 88]%nat, [2000; 88]%nat))
      by (vm_compute; reflexivity).
    rewrite E in H. cbn in H. injection H as H1 H2. now split.
  - exfalso.
    assert (H : is_ok (spectrogram_to_non_overlap_note_activation
                         (flat_spectrogram 2000 229) 2000
                         (zero_predictor 2000)) = true)
      by (vm_compute; reflexivity).
    rewrite E in H. discriminate.
Qed.

(** * Further properties of the ground truth *)














(** X4: in the result of [midi_to_groundtruth] every onset cell is an active
    frame cell: the onset rows of a note are marked only when both lie
    inside the note. *)
Theorem onset_cells_are_frame_cells :
  forall notes dt n_frames is_chroma,
    (0 < dt)%Q -> 0 <= n_frames -> Forall note_ok notes ->
    exists g o,
      midi_to_groundtruth notes dt n_frames is_chroma = Ok (g, o)
      /\ forall r c, (r < Z.to_nat n_frames)%nat ->
                     (c < label_columns is_chroma)%nat ->
           cell 0 o r c = 1 -> cell 0 g r c = 1.
Proof.
  intros notes dt n_frames is_chroma Hdt Hn Hok.
  destruct (midi_to_groundtruth_cells notes dt n_frames is_chroma Hdt Hn Hok)
    as (g & o & E & _ & _ & Cg & Co).
  exists g, o. split; [exact E|]. intros r c Hr Hc.
  rewrite (Cg r c Hr Hc), (Co r c Hr)
    by (destruct is_chroma; cbn in Hc; lia).
  destruct (existsb (in_onset dt is_chroma r c) notes) eqn:Eo; [|discriminate].
  intros _. apply existsb_exists in Eo as (nt & Hin & Hnt).
  replace (existsb (in_frames dt is_chroma r c) notes) with true;
    [reflexivity|].
  symmetry. apply existsb_exists. exists nt. split; [assumption|].
  unfold in_onset in Hnt. unfold in_frames.
  apply andb_true_iff in Hnt as [Hspan Hnt].
  apply andb_true_iff in Hnt as [Hnt Hl].
  apply andb_true_iff in Hnt as [Hlo Hhi].
  apply Z.leb_le in Hspan. apply Z.ltb_lt in Hhi. rewrite Hlo, Hl.
  cbn [andb]. rewrite andb_true_r. apply Z.ltb_lt. lia.
Qed.

Lemma onset_cells_are_frame_cells_witness :
  exists g o,
    midi_to_groundtruth [single_note; mk_note (1 # 5) 64 (1 # 100) 80 0]
      (1 / 100) 60 true = Ok (g, o)
    /\ forall r c, (r < 60)%nat -> (c < 12)%nat ->
         cell 0 o r c = 1 -> cell 0 g r c = 1.
Proof.
  apply (onset_cells_are_frame_cells
           [single_note; mk_note (1 # 5) 64 (1 # 100) 80 0]
           (1 / 100)%Q 60 true).
  - q_decide.
  - lia.
  - repeat constructor; cbn; try q_decide; lia.
Defined.

(** X5: the chroma ground truth is the 88-key ground truth folded by
    octaves: a chroma cell is active exactly when some key of that pitch
    class (counted from A0) is active in the same frame. *)
Theorem chroma_is_folded_piano :
  forall notes dt n_frames,
    (0 < dt)%Q -> 0 <= n_frames -> Forall note_ok notes ->
    exists gc oc gp op,
      midi_to_groundtruth notes dt n_frames true = Ok (gc, oc)
      /\ midi_to_groundtruth notes dt n_frames false = Ok (gp, op)
      /\ forall r c, (r < Z.to_nat n_frames)%nat -> (c < 12)%nat ->
           (cell 0 gc r c = 1
            <-> exists key, (key < 88)%nat /\ (key mod 12 = c)%nat
                            /\ cell 0 gp r key = 1).
Proof.
  intros notes dt n_frames Hdt Hn Hok.
  destruct (midi_to_groundtruth_cells notes dt n_frames true Hdt Hn Hok)
    as (gc & oc & Ec & _ & _ & Cc & _).
  destruct (midi_to_groundtruth_cells notes dt n_frames false Hdt Hn Hok)
    as (gp & op & Ep & _ & _ & Cp & _).
  exists gc, oc, gp, op. split; [exact Ec|]. split; [exact Ep|].
  intros r c Hr Hc. rewrite (Cc r c Hr Hc). split.
  - destruct (existsb (in_frames dt true r c) notes) eqn:E; [|discriminate].
    intros _. apply existsb_exists in E as (nt & Hin & Hnt).
    assert (Hnt_ok : note_ok nt) by (eapply Forall_forall; eassumption).
    pose proof (label_of_piano nt Hnt_ok) as Hlab.
    exists (Z.to_nat (label_of nt false)).
    unfold in_frames in Hnt.
    apply andb_true_iff in Hnt as [Hrows Hl]. apply Z.eqb_eq in Hl.
    change (label_of nt true) with (label_of nt false mod 12) in Hl.
    split; [lia|]. split.
    + apply Nat2Z.inj. rewrite Nat2Z.inj_mod, Z2Nat.id by lia. exact Hl.
    + assert (Hkey : (Z.to_nat (label_of nt false) < 88)%nat) by lia.
      rewrite (Cp r _ Hr Hkey).
      replace (existsb (in_frames dt false r (Z.to_nat (label_of nt false)))
                 notes)
        with true; [reflexivity|].
      symmetry. apply existsb_exists. exists nt. split; [assumption|].
      unfold in_frames. rewrite Hrows. cbn [andb].
      apply Z.eqb_eq. lia.
  - intros (key & Hkey & Hmod & Hcell).
    rewrite (Cp r key Hr Hkey) in Hcell.
    destruct (existsb (in_frames dt false r key) notes) eqn:E; [|discriminate].
    apply existsb_exists in E as (nt & Hin & Hnt).
    replace (existsb (in_frames dt true r c) notes) with true; [reflexivity|].
    symmetry. apply existsb_exists. exists nt. split; [assumption|].
    unfold in_frames in Hnt |- *.
    apply andb_true_iff in Hnt as [Hrows Hl]. apply Z.eqb_eq in Hl.
    rewrite Hrows. cbn [andb]. apply Z.eqb_eq.
    change (label_of nt true) with (label_of nt false mod 12). rewrite Hl.
    rewrite <- Hmod. now rewrite Nat2Z.inj_mod.
Qed.

Lemma chroma_is_folded_piano_witness :
  exists gc oc gp op,
    midi_to_groundtruth [single_note] (1 / 100) 60 true = Ok (gc, oc)
    /\ midi_to_groundtruth [single_note] (1 / 100) 60 false = Ok (gp, op)
    /\ (cell 0 gc 0 3 = 1
        <-> exists key, (key < 88)%nat /\ (key mod 12 = 3)%nat
                        /\ cell 0 gp 0 key = 1).
Proof.
  destruct (chroma_is_folded_piano [single_note] (1 / 100)%Q 60)
    as (gc & oc & gp & op & Ec & Ep & C).
  - q_decide.
  - lia.
  - repeat constructor; cbn; try q_decide; lia.
  - exists gc, oc, gp, op. split; [exact Ec|]. split; [exact Ep|].
    apply C; lia.
Defined.

Lemma index_norm_ok n i :
  - Z.of_nat n <= i < Z.of_nat n -> exists k, index_norm n i = Ok k.
Proof.
  intros H. unfold index_norm.
  destruct (Z.leb_spec 0 i), (Z.ltb_spec i (Z.of_nat n)),
    (Z.leb_spec (- Z.of_nat n) i), (Z.ltb_spec i 0); cbn;
    try (eexists; reflexivity); lia.
Qed.

Lemma index_norm_out n i :
  ~ (- Z.of_nat n <= i < Z.of_nat n) -> index_norm n i = Raise IndexError.
Proof.
  intros H. unfold index_norm.
  destruct (Z.leb_spec 0 i), (Z.ltb_spec i (Z.of_nat n)),
    (Z.leb_spec (- Z.of_nat n) i), (Z.ltb_spec i 0); cbn;
    try reflexivity; lia.
Qed.

(** [a[i:j, c] = v] on a two-dimensional array succeeds exactly when the
    column is a valid index; the row bounds never matter. *)
Lemma setitem_rows_col_column {A} (a : ndarray A) n m i j c v :
  shape a = [n; m] ->
  (- Z.of_nat m <= c < Z.of_nat m ->
   exists a', setitem_rows_col a i j c v = Ok a' /\ shape a' = [n; m])
  /\ (~ (- Z.of_nat m <= c < Z.of_nat m) ->
      setitem_rows_col a i j c v = Raise IndexError).
Proof.
  intros Hs. unfold setitem_rows_col. rewrite Hs. split.
  - intros Hc. destruct (index_norm_ok m c Hc) as (k & ->). cbn [bind].
    eexists. split; reflexivity.
  - intros Hc. now rewrite (index_norm_out m c Hc).
Qed.

Lemma midi_to_groundtruth_loop_errors dt is_chroma n notes :
  forall g0 o0,
    shape g0 = [n; label_columns is_chroma] -> shape o0 = [n; 88%nat] ->
    (Forall (fun nt => is_chroma = true \/ label_indexable nt) notes ->
     is_ok (for_each (midi_to_groundtruth_note dt is_chroma) (g0, o0) notes)
     = true)
    /\ (Exists (fun nt => is_chroma = false /\ ~ label_indexable nt) notes ->
        for_each (midi_to_groundtruth_note dt is_chroma) (g0, o0) notes
        = Raise IndexError).
Proof.
  induction notes as [|nt notes IH]; intros g0 o0 Hg Ho.
  - split; [reflexivity | intros H; inversion H].
  - cbn [for_each]. unfold midi_to_groundtruth_note at 1 3.
    destruct (setitem_rows_col_column g0 n (label_columns is_chroma)
                (frame_start_of nt dt) (frame_end_of nt dt)
                (label_of nt is_chroma) 1 Hg) as [Hgok Hgerr].
    destruct (setitem_rows_col_column o0 n 88
                (frame_start_of nt dt) (frame_start_of nt dt + 2)
                (label_of nt is_chroma) 1 Ho) as [Hook Hoerr].
    assert (Hcases : (- Z.of_nat (label_columns is_chroma)
                      <= label_of nt is_chroma
                      < Z.of_nat (label_columns is_chroma)
                      /\ - Z.of_nat 88 <= label_of nt is_chroma < Z.of_nat 88
                      /\ (is_chroma = true \/ label_indexable nt))
                     \/ (~ (- Z.of_nat (label_columns is_chroma)
                            <= label_of nt is_chroma
                            < Z.of_nat (label_columns is_chroma))
                         /\ is_chroma = false /\ ~ label_indexable nt)).
    { destruct is_chroma.
      - left. pose proof (label_of_chroma nt). unfold label_columns.
        split; [lia|]. split; [lia | now left].
      - unfold label_columns, label_indexable.
        destruct (Z_le_dec (-88) (label_of nt false)),
          (Z_lt_dec (label_of nt false) 88);
          [left; split; [lia|]; split; [lia | right; lia]
          | right; split; [lia|]; split; [reflexivity | lia] ..]. }
    destruct Hcases as [(Hc1 & Hc2 & Hgood) | (Hc1 & Hbad)].
    + destruct (Hgok Hc1) as (g1 & -> & Hg1). cbn [bind].
      assert (Hstep : exists o1,
                 (if frame_start_of nt dt + 2 <=? frame_end_of nt dt
                  then onset_gt <- setitem_rows_col o0 (frame_start_of nt dt)
                                     (frame_start_of nt dt + 2)
                                     (label_of nt is_chroma) 1 ;;
                       Ok (g1, onset_gt)
                  else Ok (g1, o0)) = Ok (g1, o1)
                 /\ shape o1 = [n; 88%nat]).
      { destruct (frame_start_of nt dt + 2 <=? frame_end_of nt dt).
        - destruct (Hook Hc2) as (o1 & -> & Ho1). exists o1. now split.
        - exists o0. now split. }
      destruct Hstep as (o1 & -> & Ho1). cbn [bind].
      destruct (IH g1 o1 Hg1 Ho1) as [IHok IHerr]. split.
      * intros Hall. inversion Hall; subst. now apply IHok.
      * intros Hex. inversion Hex as [? ? [Hf Hnot] | ? ? Htl]; subst.
        -- exfalso. destruct Hgood as [Ht | Hi]; [congruence | contradiction].
        -- now apply IHerr.
    + rewrite (Hgerr Hc1). cbn [bind]. split.
      * intros Hall. inversion Hall as [|? ? [Hch | Hidx] _]; subst.
        -- destruct Hbad; congruence.
        -- destruct Hbad; contradiction.
      * reflexivity.
Qed.

(** X6: for a non-negative frame count and a non-zero frame period,
    [midi_to_groundtruth] fails only on keys: in chroma mode it accepts
    every note list; for the 88 keys it returns when every pitch - 21 is a
    valid column index (counted from either end) and raises IndexError as
    soon as one is not, e.g. for pitch 109.  Note times never make it fail:
    slices are clipped. *)
Theorem midi_to_groundtruth_fails_only_on_keys :
  forall notes dt n_frames,
    0 <= n_frames -> ~ (dt == 0)%Q ->
    is_ok (midi_to_groundtruth notes dt n_frames true) = true
    /\ (Forall label_indexable notes ->
        is_ok (midi_to_groundtruth notes dt n_frames false) = true)
    /\ (Exists (fun nt => ~ label_indexable nt) notes ->
        midi_to_groundtruth notes dt n_frames false = Raise IndexError).
Proof.
  intros notes dt n_frames Hn _. unfold midi_to_groundtruth.
  rewrite !np_zeros_2d by lia. cbn [bind].
  split; [|split].
  - apply (midi_to_groundtruth_loop_errors dt true (Z.to_nat n_frames) notes);
      try reflexivity.
    apply Forall_forall. intros; now left.
  - intros Hall.
    apply (midi_to_groundtruth_loop_errors dt false (Z.to_nat n_frames) notes);
      try reflexivity.
    eapply Forall_impl; [|exact Hall]. intros; now right.
  - intros Hex.
    apply (midi_to_groundtruth_loop_errors dt false (Z.to_nat n_frames) notes);
      try reflexivity.
    eapply Exists_impl; [|exact Hex]. intros; now split.
Qed.

Lemma midi_to_groundtruth_fails_only_on_keys_witness :
  is_ok (midi_to_groundtruth [mk_note 0 109 (1 # 2) 100 0] (1 / 100) 60 true)
  = true
  /\ is_ok (midi_to_groundtruth [mk_note (-1) 20 300 100 0] (1 / 100) 60 false)
     = true
  /\ midi_to_groundtruth [single_note; mk_note 0 109 0 100 0] (1 / 100) 60
       false = Raise IndexError.
Proof.
  split; [|split].
  - apply (midi_to_groundtruth_fails_only_on_keys
             [mk_note 0 109 (1 # 2) 100 0] (1 / 100)%Q 60);
      [lia | intros H; discriminate H].
  - apply (midi_to_groundtruth_fails_only_on_keys
             [mk_note (-1) 20 300 100 0] (1 / 100)%Q 60);
      [lia | intros H; discriminate H |].
    repeat constructor; cbn; lia.
  - apply (midi_to_groundtruth_fails_only_on_keys
             [single_note; mk_note 0 109 0 100 0] (1 / 100)%Q 60);
      [lia | intros H; discriminate H |].
    right. left. unfold label_indexable. cbn. lia.
Defined.

Lemma setitem_rows_col_spec_wrap {A} (d : A) a n m i j c v :
  is_matrix a n m -> 0 <= i -> 0 <= j -> - Z.of_nat m <= c < 0 ->
  exists a',
    setitem_rows_col a i j c v = Ok a' /\ is_matrix a' n m /\
    forall r c0, (r < n)%nat -> (c0 < m)%nat ->
      cell d a' r c0
      = if (i <=? Z.of_nat r) && (Z.of_nat r <? j)
           && (c + Z.of_nat m =? Z.of_nat c0)
        then v else cell d a r c0.
Proof.
  intros [Hs Hl] Hi Hj Hc. unfold setitem_rows_col. rewrite Hs.
  assert (Ei : index_norm m c = Ok (Z.to_nat (c + Z.of_nat m))).
  { unfold index_norm.
    replace (0 <=? c) with false by (symmetry; apply Z.leb_gt; lia).
    replace (- Z.of_nat m <=? c) with true by (symmetry; apply Z.leb_le; lia).
    replace (c <? 0) with true by (symmetry; apply Z.ltb_lt; lia).
    reflexivity. }
  rewrite Ei. cbn [bind].
  eexists. split; [reflexivity|]. split.
  - split; [reflexivity | cbn; now rewrite mapi_length].
  - intros r c0 Hr Hc0.
    unfold cell at 1. cbn [shape data nth].
    rewrite (mapi_nth _ _ _ d d) by (rewrite Hl; now apply cell_index_lt).
    rewrite cell_index_div, cell_index_mod by assumption.
    rewrite !slice_bound_nonneg by assumption.
    unfold cell. rewrite Hs. cbn [nth].
    assert (E : ((Nat.min (Z.to_nat i) n <=? r)%nat
                 && (r <? Nat.min (Z.to_nat j) n)%nat
                 && (c0 =? Z.to_nat (c + Z.of_nat m))%nat)
                = ((i <=? Z.of_nat r) && (Z.of_nat r <? j)
                   && (c + Z.of_nat m =? Z.of_nat c0))).
    { destruct (Z.leb_spec i (Z.of_nat r)), (Z.ltb_spec (Z.of_nat r) j),
        (Z.eqb_spec (c + Z.of_nat m) (Z.of_nat c0));
      destruct (Nat.leb_spec (Nat.min (Z.to_nat i) n) r),
        (Nat.ltb_spec r (Nat.min (Z.to_nat j) n)),
        (Nat.eqb_spec c0 (Z.to_nat (c + Z.of_nat m)));
        cbn; try reflexivity; lia. }
    now rewrite E.
Qed.

(** X7: a note below the lowest key is not rejected: its negative label
    pitch - 21 indexes the columns from the end, so a note of pitch 20 is
    written into column 87, the column of the highest key. *)
Theorem note_below_range_wraps :
  forall nt dt n_frames,
    (0 < dt)%Q -> 0 <= n_frames ->
    (0 <= onset nt)%Q -> (0 <= duration nt)%Q ->
    -67 <= py_int (_pitch nt) <= 20 ->
    exists g o,
      midi_to_groundtruth [nt] dt n_frames false = Ok (g, o)
      /\ forall r c, (r < Z.to_nat n_frames)%nat -> (c < 88)%nat ->
           cell 0 g r c
           = if (frame_start_of nt dt <=? Z.of_nat r)
                && (Z.of_nat r <? frame_end_of nt dt)
                && (py_int (_pitch nt) - 21 + 88 =? Z.of_nat c)
             then 1 else 0.
Proof.
  intros nt dt n_frames Hdt Hn Hon Hdur Hp.
  pose proof (frame_start_nonneg nt dt Hdt Hon) as Hfs.
  pose proof (frame_start_le_end nt dt Hdt Hdur) as Hfe.
  unfold midi_to_groundtruth. rewrite !np_zeros_2d by lia. cbn [bind].
  cbn [for_each]. unfold midi_to_groundtruth_note.
  change (label_of nt false) with (py_int (_pitch nt) - 21).
  change (Z.to_nat 88) with 88%nat.
  destruct (setitem_rows_col_spec_wrap 0 _ (Z.to_nat n_frames) 88
              (frame_start_of nt dt) (frame_end_of nt dt)
              (py_int (_pitch nt) - 21) 1
              (zeros_is_matrix 0 (Z.to_nat n_frames) 88))
    as (g & Eg & Hg & Cg); try lia.
  rewrite Eg. cbn [bind].
  destruct (setitem_rows_col_spec_wrap 0 _ (Z.to_nat n_frames) 88
              (frame_start_of nt dt) (frame_start_of nt dt + 2)
              (py_int (_pitch nt) - 21) 1
              (zeros_is_matrix 0 (Z.to_nat n_frames) 88))
    as (o & Eo & _ & _); try lia.
  rewrite Eo.
  assert (Hcell : forall r c, (r < Z.to_nat n_frames)%nat -> (c < 88)%nat ->
            cell 0 g r c
            = if (frame_start_of nt dt <=? Z.of_nat r)
                 && (Z.of_nat r <? frame_end_of nt dt)
                 && (py_int (_pitch nt) - 21 + 88 =? Z.of_nat c)
              then 1 else 0).
  { intros r c Hr Hc. rewrite (Cg r c Hr Hc), cell_zeros. reflexivity. }
  destruct (frame_start_of nt dt + 2 <=? frame_end_of nt dt); cbn [bind];
    eexists; eexists; (split; [reflexivity | exact Hcell]).
Qed.

Lemma note_below_range_wraps_witness :
  exists g o,
    midi_to_groundtruth [mk_note 0 20 (1 # 2) 100 0] (1 / 100) 60 false
    = Ok (g, o)
    /\ cell 0 g 10 87 = 1.
Proof.
  destruct (note_below_range_wraps (mk_note 0 20 (1 # 2) 100 0)
              (1 / 100)%Q 60) as (g & o & E & C).
  - q_decide.
  - lia.
  - cbn. q_decide.
  - cbn. q_decide.
  - cbn. lia.
  - exists g, o. split; [exact E|].
    rewrite (C 10 87)%nat by lia. reflexivity.
Defined.

(** * Further properties of chunking and the record writers *)

Lemma firstn_skipn_app {A} (l : list A) a b :
  firstn a l ++ firstn b (skipn a l) = firstn (a + b) l.
Proof.
  revert l. induction a as [|a IH]; intros l; [reflexivity|].
  destruct l as [|x l]; cbn; [now rewrite firstn_nil | now rewrite IH].
Qed.

Lemma raw_chunks_concat {A} (a : ndarray A) n m c j :
  is_matrix a n m -> (0 < c)%nat -> (j <= chunk_count n c)%nat ->
  concat (map (fun i => data (raw_chunk a c i)) (seq 0 j))
  = firstn (Nat.min (j * c) n * m) (data a).
Proof.
  intros Ha Hc. induction j as [|j IH]; intros Hj; [reflexivity|].
  rewrite seq_S, map_app, concat_app, IH by lia. cbn [map concat Nat.add].
  rewrite app_nil_r.
  assert (Hlt : (j * c < n)%nat) by (apply chunk_count_lt; lia).
  unfold raw_chunk, rows_between, real_rows. cbn [data].
  rewrite (stride_matrix a n m Ha), (len_matrix a n m Ha).
  replace (j * c + Nat.min c (n - j * c) - j * c)%nat
    with (Nat.min c (n - j * c)) by lia.
  replace (Nat.min (j * c) n) with (j * c)%nat by lia.
  rewrite firstn_skipn_app. f_equal. nia.
Qed.

(** X8: [chunks] loses and duplicates nothing: for a positive length the
    chunks of a matrix, put end to end, are the matrix again, and their row
    counts add up to its row count; a matrix without rows gives no chunk. *)
Theorem chunks_concat :
  forall (A : Type) (a : ndarray A) n m length,
    is_matrix a n m -> 0 < length ->
    exists l,
      chunks a length = Ok l
      /\ concat (map data l) = data a
      /\ fold_right Nat.add 0%nat (map len l) = n
      /\ (n = 0%nat -> l = []).
Proof.
  intros A a n m c Ha Hc. rewrite (chunks_matrix a n m c Ha Hc).
  eexists. split; [reflexivity|].
  set (cn := Z.to_nat c). assert (Hcn : (0 < cn)%nat) by (unfold cn; lia).
  assert (Hk : (n <= chunk_count n cn * cn)%nat).
  { destruct (Nat.le_gt_cases n (chunk_count n cn * cn)) as [|Hlt];
      [assumption|].
    apply chunk_count_lt in Hlt; [lia | assumption]. }
  split; [|split].
  - rewrite map_map.
    rewrite (raw_chunks_concat a n m cn _ Ha Hcn (le_n _)).
    replace (Nat.min (chunk_count n cn * cn) n) with n by lia.
    destruct Ha as [_ Hl]. rewrite <- Hl. apply firstn_all.
  - rewrite map_map.
    assert (Hsum : forall j, (j <= chunk_count n cn)%nat ->
              fold_right Nat.add 0%nat
                (map (fun i => len (raw_chunk a cn i)) (seq 0 j))
              = Nat.min (j * cn) n).
    { induction j as [|j IH]; intros Hj; [reflexivity|].
      rewrite seq_S, map_app, fold_right_app. cbn [map fold_right Nat.add].
      assert (Hlt : (j * cn < n)%nat) by (apply chunk_count_lt; lia).
      assert (Hgen : forall l x,
                 fold_right Nat.add x l
                 = (fold_right Nat.add 0%nat l + x)%nat).
      { induction l as [|y l IHl]; intros x; cbn; [lia|].
        rewrite IHl. lia. }
      rewrite Hgen, IH by lia.
      unfold len, raw_chunk, real_rows. cbn [shape hd].
      fold (len a). rewrite (len_matrix a n m Ha). lia. }
    rewrite (Hsum _ (le_n _)). lia.
  - intros ->. unfold chunk_count. rewrite Nat.div_small by lia. reflexivity.
Qed.

Lemma chunks_concat_witness :
  exists l,
    chunks (flat_spectrogram 22 3) 10 = Ok l
    /\ concat (map data l) = data (flat_spectrogram 22 3)
    /\ fold_right Nat.add 0%nat (map len l) = 22%nat.
Proof.
  destruct (chunks_concat Q (flat_spectrogram 22 3) 22 3 10)
    as (l & E & Hc & Hs & _).
  - split; reflexivity.
  - lia.
  - exists l. now repeat split.
Defined.

Lemma rows_between_length {A} (a : ndarray A) n m lo hi :
  is_matrix a n m -> (lo <= hi)%nat -> (hi <= n)%nat ->
  length (rows_between a lo hi) = ((hi - lo) * m)%nat.
Proof.
  intros Ha Hlo Hhi. unfold rows_between.
  rewrite (stride_matrix a n m Ha), length_firstn, length_skipn.
  destruct Ha as [_ ->]. nia.
Qed.

Lemma padded_chunk_length {A} (zero : A) (a : ndarray A) n m c i :
  is_matrix a n m -> (0 < c)%nat -> (i < chunk_count n c)%nat ->
  length (data (padded_chunk zero a c i)) = (c * m)%nat.
Proof.
  intros Ha Hc Hi. apply chunk_count_lt in Hi; [|assumption].
  unfold padded_chunk, raw_chunk. cbn [data].
  rewrite length_app, repeat_length.
  rewrite (rows_between_length a n m) by
    (try assumption; unfold real_rows; rewrite (len_matrix a n m Ha); lia).
  rewrite (stride_matrix a n m Ha).
  unfold real_rows. rewrite (len_matrix a n m Ha). nia.
Qed.

Lemma padded_chunks_concat {A} (zero : A) (a : ndarray A) n m c :
  is_matrix a n m -> (0 < c)%nat -> (0 < n)%nat ->
  concat (map (fun i => data (padded_chunk zero a c i))
              (seq 0 (chunk_count n c)))
  = data a ++ repeat zero ((chunk_count n c * c - n) * m).
Proof.
  intros Ha Hc Hn.
  pose proof (chunk_count_positive n c Hc Hn) as Hk.
  destruct (chunk_count n c) as [|k'] eqn:Ek; [lia|].
  assert (Hlast : (k' * c < n)%nat) by (apply chunk_count_lt; lia).
  assert (Hall : (n <= S k' * c)%nat).
  { destruct (Nat.le_gt_cases n (S k' * c)) as [|Hlt]; [assumption|].
    apply chunk_count_lt in Hlt; [lia | assumption]. }
  rewrite seq_S, map_app, concat_app. cbn [map concat Nat.add].
  rewrite app_nil_r.
  rewrite (map_ext_in _ (fun i => data (raw_chunk a c i))).
  2:{ intros i Hi. apply in_seq in Hi.
      rewrite <- (raw_chunk_full zero); [reflexivity|].
      apply full_chunk_rows; [assumption|].
      rewrite (len_matrix a n m Ha), Ek. lia. }
  unfold padded_chunk at 1. cbn [data]. rewrite app_assoc.
  assert (E : concat (map (fun i => data (raw_chunk a c i)) (seq 0 k'))
              ++ data (raw_chunk a c k') = data a).
  { pose proof (raw_chunks_concat a n m c (S k') Ha Hc) as H.
    rewrite Ek in H. specialize (H (le_n _)).
    rewrite seq_S, map_app, concat_app in H. cbn [map concat Nat.add] in H.
    rewrite app_nil_r in H. rewrite H.
    replace (Nat.min (S k' * c) n) with n by lia.
    destruct Ha as [_ Hl]. rewrite <- Hl. apply firstn_all. }
  rewrite E. f_equal. f_equal.
  rewrite (stride_matrix a n m Ha). unfold real_rows.
  rewrite (len_matrix a n m Ha). nia.
Qed.

(** What [write_file_to_non_overlap_tfrecords] writes into a fresh file for
    a non-empty spectrogram: one record per zero-padded chunk. *)
Lemma non_overlap_records spectrogram notes fps (norm : bool) context_frames
    F B :
  is_matrix spectrogram F B -> (0 < F)%nat -> (0 < B)%nat ->
  0 < context_frames -> (0 < fps)%Q -> Forall note_ok notes ->
  exists s' g o,
    (if norm then normalize spectrogram else Ok spectrogram) = Ok s'
    /\ midi_to_groundtruth notes (1 / fps) (Z.of_nat F) false = Ok (g, o)
    /\ is_matrix s' F B /\ is_matrix g F 88 /\ is_matrix o F 88
    /\ write_file_to_non_overlap_tfrecords spectrogram notes fps norm
         context_frames []
       = (map (fun i =>
                 features_to_non_overlap_multi_head_example
                   (padded_chunk 0%Q s' (Z.to_nat context_frames) i)
                   (padded_chunk 0 g (Z.to_nat context_frames) i)
                   (padded_chunk 0 o (Z.to_nat context_frames) i))
              (seq 0 (chunk_count F (Z.to_nat context_frames))),
          Ok (Z.of_nat (chunk_count F (Z.to_nat context_frames)))).
Proof.
  intros Hs HF HB Hc Hfps Hnotes.
  destruct (optional_normalize_matrix norm spectrogram F B Hs ltac:(nia))
    as (s' & En & Hs').
  destruct (midi_to_groundtruth_cells notes (1 / fps) (Z.of_nat F) false
              (inverse_fps_positive fps Hfps) ltac:(lia) Hnotes)
    as (g & o & Eg & Hg & Ho & _ & _).
  rewrite Nat2Z.id in Hg, Ho. unfold label_columns in Hg.
  exists s', g, o. split; [exact En|]. split; [exact Eg|].
  split; [exact Hs'|]. split; [exact Hg|]. split; [exact Ho|].
  unfold write_file_to_non_overlap_tfrecords, wbind at 1, wlift at 1.
  rewrite (len_matrix _ _ _ Hs), Eg.
  unfold wbind at 1, wlift at 1. rewrite En.
  unfold wbind at 1, wlift at 1.
  rewrite (chunks_matrix s' F B context_frames Hs' Hc).
  unfold wbind at 1, wlift at 1.
  rewrite (chunks_matrix g F 88 context_frames Hg Hc).
  unfold wbind at 1, wlift at 1.
  rewrite (chunks_matrix o F 88 context_frames Ho Hc).
  unfold wbind at 1, wlift at 1.
  rewrite (pad_last_chunks 0%Q s' F B context_frames Hs' Hc HF).
  unfold wbind at 1, wlift at 1.
  rewrite (pad_last_chunks 0 g F 88 context_frames Hg Hc HF).
  unfold wbind at 1, wlift at 1.
  rewrite (pad_last_chunks 0 o F 88 context_frames Ho Hc HF).
  unfold zip3. rewrite !combine_map.
  rewrite (wfor_writes _
             (fun p : ndarray Q * ndarray Z * ndarray Z =>
                let '(ex, gt, onset) := p in
                features_to_non_overlap_multi_head_example ex gt onset)).
  - cbn [app]. rewrite map_map, !length_map, length_seq. reflexivity.
  - intros t [[ex gt] onset] w. reflexivity.
Qed.

(** X9: every record [write_file_to_non_overlap_tfrecords] writes has the
    fixed layout the parser expects: the three features "label", "onset"
    and "spec", with C x 88, C x 88 and C x freq_bins values, also for the
    last, padded chunk. *)
Theorem non_overlap_record_layout :
  forall spectrogram notes fps (norm : bool) context_frames F B,
    is_matrix spectrogram F B -> (0 < F)%nat -> (0 < B)%nat ->
    0 < context_frames -> (0 < fps)%Q -> Forall note_ok notes ->
    exists records count,
      write_file_to_non_overlap_tfrecords spectrogram notes fps norm
        context_frames []
      = (records, Ok count)
      /\ forall ex, In ex records ->
           exists label onset spec,
             ex = [("label"%string, int64_list label);
                   ("onset"%string, int64_list onset);
                   ("spec"%string, float_list spec)]
             /\ length label = (Z.to_nat context_frames * 88)%nat
             /\ length onset = (Z.to_nat context_frames * 88)%nat
             /\ length spec = (Z.to_nat context_frames * B)%nat.
Proof.
  intros spectrogram notes fps norm context_frames F B Hs HF HB Hc Hfps
    Hnotes.
  destruct (non_overlap_records spectrogram notes fps norm context_frames F B
              Hs HF HB Hc Hfps Hnotes)
    as (s' & g & o & _ & _ & Hs' & Hg & Ho & E).
  do 2 eexists. split; [exact E|].
  intros ex Hin. apply in_map_iff in Hin as (i & <- & Hi).
  apply in_seq in Hi. do 3 eexists. split; [reflexivity|].
  unfold ravel.
  rewrite (padded_chunk_length 0 g F 88), (padded_chunk_length 0 o F 88),
    (padded_chunk_length 0%Q s' F B) by (assumption || lia).
  repeat split.
Qed.

Lemma non_overlap_record_layout_witness :
  exists records count,
    write_file_to_non_overlap_tfrecords (flat_spectrogram 22 3)
      [single_note] 100 true 10 []
    = (records, Ok count)
    /\ forall ex, In ex records ->
         exists label onset spec,
           ex = [("label"%string, int64_list label);
                 ("onset"%string, int64_list onset);
                 ("spec"%string, float_list spec)]
           /\ length label = 880%nat /\ length onset = 880%nat
           /\ length spec = 30%nat.
Proof.
  apply (non_overlap_record_layout (flat_spectrogram 22 3) [single_note]
           100%Q true 10 22%nat 3%nat).
  - split; reflexivity.
  - lia.
  - lia.
  - lia.
  - q_decide.
  - repeat constructor; cbn; try q_decide; lia.
Defined.

(** X10: the records of [write_file_to_non_overlap_tfrecords], read in
    order, hold the (optionally normalized) spectrogram, the frame ground
    truth and the onset ground truth row by row, each followed only by the
    zero rows that fill the last chunk: no frame is lost, repeated or
    moved. *)
Theorem non_overlap_records_concat :
  forall spectrogram notes fps (norm : bool) context_frames F B,
    is_matrix spectrogram F B -> (0 < F)%nat -> (0 < B)%nat ->
    0 < context_frames -> (0 < fps)%Q -> Forall note_ok notes ->
    exists records count s' g o,
      write_file_to_non_overlap_tfrecords spectrogram notes fps norm
        context_frames []
      = (records, Ok count)
      /\ (if norm then normalize spectrogram else Ok spectrogram) = Ok s'
      /\ midi_to_groundtruth notes (1 / fps) (Z.of_nat F) false = Ok (g, o)
      /\ let pad := (Z.to_nat count * Z.to_nat context_frames - F)%nat in
         flat_map spec_values records = data s' ++ repeat 0%Q (pad * B)
         /\ flat_map (int_values "label") records
            = data g ++ repeat 0 (pad * 88)
         /\ flat_map (int_values "onset") records
            = data o ++ repeat 0 (pad * 88).
Proof.
  intros spectrogram notes fps norm context_frames F B Hs HF HB Hc Hfps
    Hnotes.
  destruct (non_overlap_records spectrogram notes fps norm context_frames F B
              Hs HF HB Hc Hfps Hnotes)
    as (s' & g & o & En & Eg & Hs' & Hg & Ho & E).
  exists (map (fun i =>
                 features_to_non_overlap_multi_head_example
                   (padded_chunk 0%Q s' (Z.to_nat context_frames) i)
                   (padded_chunk 0 g (Z.to_nat context_frames) i)
                   (padded_chunk 0 o (Z.to_nat context_frames) i))
              (seq 0 (chunk_count F (Z.to_nat context_frames)))),
         (Z.of_nat (chunk_count F (Z.to_nat context_frames))), s', g, o.
  split; [exact E|]. split; [exact En|]. split; [exact Eg|].
  cbv zeta. rewrite Nat2Z.id.
  rewrite !flat_map_concat_map, !map_map.
  assert (Hc' : (0 < Z.to_nat context_frames)%nat) by lia.
  split; [|split].
  - rewrite <- (padded_chunks_concat 0%Q s' F B _ Hs' Hc' HF).
    f_equal. apply map_ext. intros i. cbn. now rewrite !app_nil_r.
  - rewrite <- (padded_chunks_concat 0 g F 88 _ Hg Hc' HF).
    f_equal. apply map_ext. intros i. cbn. now rewrite !app_nil_r.
  - rewrite <- (padded_chunks_concat 0 o F 88 _ Ho Hc' HF).
    f_equal. apply map_ext. intros i. cbn. now rewrite !app_nil_r.
Qed.

Lemma non_overlap_records_concat_witness :
  exists records count s' g o,
    write_file_to_non_overlap_tfrecords (flat_spectrogram 22 3)
      [single_note] 100 false 10 []
    = (records, Ok count)
    /\ Ok (flat_spectrogram 22 3) = Ok s'
    /\ midi_to_groundtruth [single_note] (1 / 100) (Z.of_nat 22) false
       = Ok (g, o)
    /\ let pad := (Z.to_nat count * Z.to_nat 10 - 22)%nat in
       flat_map spec_values records = data s' ++ repeat 0%Q (pad * 3)
       /\ flat_map (int_values "label") records
          = data g ++ repeat 0 (pad * 88)
       /\ flat_map (int_values "onset") records
          = data o ++ repeat 0 (pad * 88).
Proof.
  apply (non_overlap_records_concat (flat_spectrogram 22 3) [single_note]
           100%Q false 10 22%nat 3%nat).
  - split; reflexivity.
  - lia.
  - lia.
  - lia.
  - q_decide.
  - repeat constructor; cbn; try q_decide; lia.
Defined.

Lemma range_empty lo hi : hi <= lo -> range lo hi = [].
Proof.
  intros H. unfold range. replace (Z.to_nat (hi - lo)) with 0%nat by lia.
  reflexivity.
Qed.

Lemma chunks_nothing {A} (a : ndarray A) c :
  len a = 0%nat \/ c <= 0 ->
  chunks a c = Ok [] \/ chunks a c = Raise ValueError.
Proof.
  intros H. unfold chunks.
  destruct (Z.eqb_spec c 0) as [|Hne]; [now right|]. left.
  destruct (Z.ltb_spec c 0) as [|Hge]; [reflexivity|].
  destruct H as [H | H]; [|lia].
  unfold range_step. rewrite H. cbn [Z.of_nat].
  rewrite Z.div_small by lia. reflexivity.
Qed.

(** X11: [write_file_to_non_overlap_tfrecords] needs at least one frame and
    a positive chunk length: on a spectrogram without frames, or with
    context_frames <= 0, it raises and leaves the file without any record
    (there is no last chunk to pad, or the chunk step is zero). *)
Theorem non_overlap_writer_needs_frames :
  forall spectrogram notes fps (norm : bool) context_frames w,
    len spectrogram = 0%nat \/ context_frames <= 0 ->
    exists e,
      write_file_to_non_overlap_tfrecords spectrogram notes fps norm
        context_frames w
      = (w, Raise e).
Proof.
  intros spectrogram notes fps norm context_frames w H.
  unfold write_file_to_non_overlap_tfrecords, wbind, wlift.
  destruct (midi_to_groundtruth _ _ _ _) as [[g o]|e];
    [|now exists e].
  destruct (if norm then normalize spectrogram else Ok spectrogram)
    as [s'|e] eqn:En; [|now exists e].
  assert (H' : len s' = 0%nat \/ context_frames <= 0).
  { destruct H as [H | H]; [left | now right].
    now rewrite (optional_normalize_len _ _ _ En). }
  destruct (chunks_nothing s' context_frames H') as [-> | ->];
    [|now exists ValueError].
  destruct (chunks g context_frames) as [sg|e]; [|now exists e].
  destruct (chunks o context_frames) as [so|e]; [|now exists e].
  now exists IndexError.
Qed.

Lemma non_overlap_writer_needs_frames_witness :
  (exists e,
     write_file_to_non_overlap_tfrecords (flat_spectrogram 0 229) [] 100
       false 10 [] = ([], Raise e))
  /\ (exists e,
        write_file_to_non_overlap_tfrecords (flat_spectrogram 22 229) [] 100
          false 0 [] = ([], Raise e)).
Proof.
  split.
  - apply (non_overlap_writer_needs_frames (flat_spectrogram 0 229) [] 100%Q
             false 10 []). left. reflexivity.
  - apply (non_overlap_writer_needs_frames (flat_spectrogram 22 229) [] 100%Q
             false 0 []). right. lia.
Defined.



(** * Further properties of the inference helpers *)

Lemma skipn_repeat {A} (x : A) k n : skipn k (repeat x n) = repeat x (n - k).
Proof.
  revert n. induction k as [|k IH]; intros n.
  - now rewrite Nat.sub_0_r.
  - destruct n as [|n]; [reflexivity | apply IH].
Qed.

Lemma firstn_repeat_min {A} (x : A) k n :
  firstn k (repeat x n) = repeat x (Nat.min k n).
Proof.
  revert n. induction k as [|k IH]; intros n; [reflexivity|].
  destruct n as [|n]; [reflexivity|]. cbn. now rewrite IH.
Qed.

Lemma setitem_row_tuple_raises {A} (a : ndarray A) frame value :
  exists e, setitem_row_tuple a frame value = Raise e.
Proof.
  unfold setitem_row_tuple.
  destruct (shape a) as [|n [|m [|x sh]]]; try (now eexists).
  destruct (index_norm n frame); now eexists.
Qed.

(** X13: as the source stands, [spectrogram_to_note_activation] never returns
    a prediction.  Without a center frame (F - C <= C) it returns an all-zero
    matrix of max(F, 8) rows; with a center frame it raises at the first
    one, because the pair returned by [get_activation] is assigned to a
    single row. *)
Theorem note_activation_is_zero_or_error :
  forall spec context_frames predictor,
    (Z.of_nat (len spec) - context_frames <= context_frames ->
     spectrogram_to_note_activation spec context_frames predictor
     = Ok (mk_ndarray [Nat.max (len spec) 8; 88]%nat
             (repeat 0%Q (Nat.max (len spec) 8 * 88))))
    /\ (context_frames < Z.of_nat (len spec) - context_frames ->
        exists e,
          spectrogram_to_note_activation spec context_frames predictor
          = Raise e).
Proof.
  intros spec context_frames predictor.
  unfold spectrogram_to_note_activation.
  rewrite np_zeros_2d by lia. cbn [bind]. rewrite Nat2Z.id.
  change (Z.to_nat 88) with 88%nat. split.
  - intros Hno. rewrite (range_empty _ _ Hno). cbn [for_each bind].
    rewrite np_zeros_2d by lia. cbn [bind].
    unfold np_append0, getslice_from, getslice. cbn [shape data tl len hd].
    destruct (list_eq_dec Nat.eq_dec [88%nat] [Z.to_nat 88]) as [_|Hne];
      [|exfalso; apply Hne; reflexivity].
    rewrite !slice_bound_nonneg by lia.
    unfold stride. cbn [shape tl prod_shape fold_right].
    rewrite skipn_repeat, firstn_repeat_min, <- repeat_app.
    rewrite !Nat2Z.id. change (Z.to_nat 8) with 8%nat.
    change (Z.to_nat 88) with 88%nat.
    f_equal. f_equal; [f_equal; lia | f_equal; lia].
  - intros Hcenter. destruct (range_nonempty _ _ Hcenter) as (rest & ->).
    cbn [for_each]. unfold get_activation.
    destruct (predictor _) as [act|e]; cbn [bind]; [|now exists e].
    destruct (setitem_row_tuple_raises
                (mk_ndarray [len spec; 88%nat] (repeat 0%Q (len spec * 88)))
                context_frames act) as (e & ->).
    now exists e.
Qed.

Lemma note_activation_is_zero_or_error_witness :
  spectrogram_to_note_activation (flat_spectrogram 5 3) 5 (zero_predictor 11)
  = Ok (mk_ndarray [8; 88]%nat (repeat 0%Q (8 * 88)))
  /\ exists e,
       spectrogram_to_note_activation (flat_spectrogram 28 3) 5
         (zero_predictor 11) = Raise e.
Proof.
  split.
  - apply (proj1 (note_activation_is_zero_or_error (flat_spectrogram 5 3) 5
                    (zero_predictor 11))). cbn. lia.
  - apply (proj2 (note_activation_is_zero_or_error (flat_spectrogram 28 3) 5
                    (zero_predictor 11))). cbn. lia.
Defined.






(** * Further properties of the model code *)







Lemma factorization_from_spec n i y x :
  0 < n -> factorization_from n i = Some (y, x) ->
  1 <= y <= Z.of_nat i /\ y * x = n
  /\ forall d, y < d <= Z.of_nat i -> n mod d <> 0.
Proof.
  intros Hn. revert y x.
  induction i as [|i IH]; intros y x; cbn [factorization_from];
    [discriminate|].
  assert (Hk : Z.of_nat (S i) = Z.of_nat i + 1) by lia.
  revert Hk. generalize (Z.of_nat (S i)) as k. intros k Hk.
  destruct (Z.eqb_spec (n mod k) 0) as [Hdiv | Hndiv].
  - intros E. injection E as E1 E2. subst y x. split; [lia|]. split.
    + symmetry. apply Z_div_exact_full_2; lia.
    + intros d Hd. lia.
  - intros H. destruct (IH _ _ H) as (Hy & Hyx & Hmax).
    split; [lia|]. split; [exact Hyx|].
    intros d Hd. destruct (Z.eq_dec d k) as [-> | Hne];
      [exact Hndiv | apply Hmax; lia].
Qed.

Lemma factorization_from_some n i :
  0 < n -> (1 <= i)%nat -> exists yx, factorization_from n i = Some yx.
Proof.
  intros Hn Hi. induction i as [|i IH]; [lia|]. cbn [factorization_from].
  destruct (Z.eqb_spec (n mod Z.of_nat (S i)) 0) as [|Hne]; [now eexists|].
  destruct i as [|i].
  - exfalso. apply Hne. change (Z.of_nat 1) with 1. apply Z.mod_1_r.
  - apply IH. lia.
Qed.

(** X18: for a positive number of kernels, [factorization] finds the grid
    closest to a square: it returns (grid_Y, grid_X) with
    grid_Y * grid_X = n and grid_Y <= grid_X, where grid_Y is the largest
    divisor of n whose square does not exceed n (so a prime n gives (1, n));
    for n = 0 it returns None and the unpacking in [put_kernels_on_grid]
    raises TypeError. *)
Theorem factorization_grid :
  (forall n, 0 < n ->
     exists y x,
       grid_shape n = Ok (y, x)
       /\ y * x = n /\ 1 <= y <= x
       /\ forall d, y < d -> d * d <= n -> n mod d <> 0)
  /\ grid_shape 0 = Raise TypeError.
Proof.
  split; [|reflexivity].
  intros n Hn. unfold grid_shape, factorization.
  replace (n <? 0) with false by (symmetry; apply Z.ltb_ge; lia).
  cbn [bind].
  pose proof (Z.sqrt_spec n ltac:(lia)) as Hsq.
  cbv zeta in Hsq.
  assert (Hs1 : 1 <= Z.sqrt n).
  { destruct (Z.le_gt_cases 1 (Z.sqrt n)) as [|Hlt]; [assumption|].
    pose proof (Z.sqrt_nonneg n). assert (Z.sqrt n = 0) by lia.
    rewrite H0 in Hsq. cbn in Hsq. lia. }
  destruct (factorization_from_some n (Z.to_nat (Z.sqrt n)) Hn ltac:(lia))
    as ([y x] & E).
  rewrite E. exists y, x. split; [reflexivity|].
  destruct (factorization_from_spec n _ y x Hn E) as (Hy & Hyx & Hmax).
  rewrite Z2Nat.id in Hy, Hmax by lia.
  split; [exact Hyx|]. split.
  - split; [lia|].
    destruct (Z.le_gt_cases y x) as [|Hlt]; [assumption|]. exfalso.
    assert (y * x < y * y) by (apply Z.mul_lt_mono_pos_l; lia).
    assert (y * y <= Z.sqrt n * Z.sqrt n) by (apply Z.mul_le_mono_nonneg; lia).
    lia.
  - intros d Hd Hdd. apply Hmax. split; [assumption|].
    destruct (Z.le_gt_cases d (Z.sqrt n)) as [|Hgt]; [assumption|]. exfalso.
    assert (Z.succ (Z.sqrt n) * Z.succ (Z.sqrt n) <= d * d)
      by (apply Z.mul_le_mono_nonneg; lia).
    lia.
Qed.

Lemma factorization_grid_witness :
  exists y x,
    grid_shape 48 = Ok (y, x)
    /\ y * x = 48 /\ 1 <= y <= x
    /\ forall d, y < d -> d * d <= 48 -> 48 mod d <> 0.
Proof.
  apply (proj1 factorization_grid 48). lia.
Defined.

(** * Further properties of the preprocessing *)

Lemma fold_max_spec xs : forall x,
  let m := fold_left (fun m y => if Qle_bool m y then y else m) xs x in
  In m (x :: xs) /\ Forall (fun y => (y <= m)%Q) (x :: xs).
Proof.
  induction xs as [|y xs IH]; intros x; cbn [fold_left].
  - split; [now left | constructor; [apply Qle_refl | constructor]].
  - destruct (IH (if Qle_bool x y then y else x)) as (Hin & Hall).
    set (m := fold_left _ xs _) in *.
    inversion Hall as [|? ? Hfm Hrest]; subst. split.
    + destruct Hin as [E | Hin]; [|right; now right].
      rewrite <- E. destruct (Qle_bool x y); [right; now left | now left].
    + destruct (Qle_bool x y) eqn:Exy.
      * apply Qle_bool_iff in Exy.
        constructor; [now apply Qle_trans with y|]. now constructor.
      * assert (Hyx : (y <= x)%Q).
        { destruct (Qlt_le_dec x y) as [Hlt|]; [|assumption].
          apply Qlt_le_weak in Hlt. apply Qle_bool_iff in Hlt. congruence. }
        constructor; [assumption|].
        constructor; [now apply Qle_trans with x | assumption].
Qed.

Lemma np_max_spec a m :
  np_max a = Ok m -> In m (data a) /\ Forall (fun y => (y <= m)%Q) (data a).
Proof.
  unfold np_max. destruct (data a) as [|x xs]; [discriminate|].
  intros [= <-]. apply fold_max_spec.
Qed.

Lemma clip_value_bounds x :
  (1 # 1000 <= clip_value (1 # 1000) 1 x <= 1)%Q.
Proof.
  unfold clip_value. cbv zeta.
  destruct (Qle_bool x (1 # 1000)) eqn:E1.
  - cbn. split; [apply Qle_refl | discriminate].
  - destruct (Qle_bool 1 x) eqn:E2.
    + split; [discriminate | apply Qle_refl].
    + assert (H1 : ~ (x <= 1 # 1000)%Q)
        by (intros H; apply Qle_bool_iff in H; congruence).
      assert (H2 : ~ (1 <= x)%Q)
        by (intros H; apply Qle_bool_iff in H; congruence).
      apply Qnot_le_lt in H1, H2. split; now apply Qlt_le_weak.
Qed.

Lemma clip_value_top x : (1 <= x)%Q -> clip_value (1 # 1000) 1 x = 1%Q.
Proof.
  intros H. unfold clip_value. cbv zeta.
  destruct (Qle_bool x (1 # 1000)) eqn:E1.
  - apply Qle_bool_iff in E1. exfalso.
    assert (H1 : (1 <= 1 # 1000)%Q) by now apply Qle_trans with x.
    now apply H1.
  - apply Qle_bool_iff in H. now rewrite H.
Qed.

Lemma map2_length {X Y Z'} (f : X -> Y -> Z') xs : forall ys,
  length xs = length ys -> length (map2 f xs ys) = length xs.
Proof.
  induction xs as [|x xs IH]; intros [|y ys] H; cbn in *;
    try discriminate; [reflexivity|]. f_equal. apply IH. congruence.
Qed.

(** X19: whatever madmom delivers (three arrays of one shape, the maximum of
    their sum not zero), [wav_to_spec] returns an array of that shape with
    every bin in [0.001, 1] and at least one bin at exactly 1.  Dividing the
    result by its maximum once more, as the writers do under [norm], changes
    no value. *)
Theorem wav_to_spec_scaled :
  forall spectrogram superflux_time superflux_freq F B m,
    is_matrix spectrogram F B -> is_matrix superflux_time F B ->
    is_matrix superflux_freq F B ->
    np_max (spec_sum spectrogram superflux_time superflux_freq) = Ok m ->
    ~ (m == 0)%Q ->
    exists comb,
      wav_to_spec spectrogram superflux_time superflux_freq = Ok comb
      /\ is_matrix comb F B
      /\ Forall (fun x => 1 # 1000 <= x <= 1)%Q (data comb)
      /\ In 1%Q (data comb)
      /\ exists comb',
           normalize comb = Ok comb'
           /\ shape comb' = shape comb
           /\ Forall2 Qeq (data comb') (data comb).
Proof.
  intros s t f F B m [Hs Ls] [Ht Lt] [Hf Lf] Hmax Hm.
  unfold wav_to_spec, np_add. rewrite Hs, Ht. cbn [shape].
  destruct (list_eq_dec Nat.eq_dec [F; B] [F; B]) as [_|Hne]; [|congruence].
  cbn [bind shape]. rewrite Hf.
  destruct (list_eq_dec Nat.eq_dec [F; B] [F; B]) as [_|Hne]; [|congruence].
  cbn [bind shape data].
  unfold spec_sum in Hmax. rewrite Hs in Hmax.
  unfold np_max in Hmax |- *. cbn [data] in Hmax |- *.
  set (sum := map2 Qplus (map2 Qplus (data s) (data t)) (data f)) in *.
  assert (Lsum : length sum = (F * B)%nat).
  { unfold sum. rewrite !map2_length; try congruence.
    rewrite map2_length; congruence. }
  destruct sum as [|x xs] eqn:Esum; [discriminate|].
  injection Hmax as Hmax. cbn [bind]. rewrite Hmax.
  destruct (fold_max_spec xs x) as (Hin & Hall). cbv zeta in Hin, Hall.
  rewrite Hmax in Hin, Hall.
  set (out := map (clip_value (1 # 1000) 1) (map (fun y => (y / m)%Q) (x :: xs))).
  assert (Hbounds : Forall (fun y => 1 # 1000 <= y <= 1)%Q out).
  { unfold out. apply Forall_forall. intros y Hy.
    apply in_map_iff in Hy as (z & <- & _). apply clip_value_bounds. }
  assert (Hone : In 1%Q out).
  { unfold out. apply in_map_iff. exists (m / m)%Q. split.
    - apply clip_value_top. unfold Qdiv.
      rewrite Qmult_inv_r by exact Hm. apply Qle_refl.
    - apply in_map_iff. now exists m. }
  eexists. split; [reflexivity|]. unfold np_clip. cbn [shape data].
  fold out. split; [|split; [exact Hbounds | split; [exact Hone|]]].
  { split; [reflexivity|]. cbn [data]. unfold out. rewrite !length_map.
    exact Lsum. }
  unfold normalize.
  destruct (np_max (mk_ndarray [F; B] out)) as [m'|e] eqn:E.
  - cbn [bind shape data]. eexists. split; [reflexivity|].
    split; [reflexivity|].
    destruct (np_max_spec _ _ E) as (Hin' & Hall'). cbn [data] in Hin', Hall'.
    assert (Hm' : (m' == 1)%Q).
    { apply Qle_antisym.
      - rewrite Forall_forall in Hbounds. apply (Hbounds m' Hin').
      - rewrite Forall_forall in Hall'. apply (Hall' 1%Q Hone). }
    clear - Hm'. induction out as [|y out IH]; cbn; constructor; [|exact IH].
    rewrite Hm'. unfold Qdiv. change (/ 1)%Q with 1%Q. apply Qmult_1_r.
  - exfalso. unfold np_max in E. cbn [data] in E.
    destruct out; [contradiction | discriminate].
Qed.

Lemma wav_to_spec_scaled_witness :
  exists comb,
    wav_to_spec (mk_ndarray [1; 2]%nat [1; 3]%Q)
      (mk_ndarray [1; 2]%nat [0; 1]%Q) (mk_ndarray [1; 2]%nat [-2; 0]%Q)
    = Ok comb
    /\ is_matrix comb 1 2
    /\ Forall (fun x => 1 # 1000 <= x <= 1)%Q (data comb)
    /\ In 1%Q (data comb)
    /\ exists comb',
         normalize comb = Ok comb'
         /\ shape comb' = shape comb
         /\ Forall2 Qeq (data comb') (data comb).
Proof.
  apply (wav_to_spec_scaled (mk_ndarray [1; 2]%nat [1; 3]%Q)
           (mk_ndarray [1; 2]%nat [0; 1]%Q) (mk_ndarray [1; 2]%nat [-2; 0]%Q)
           1 2 4%Q).
  - split; reflexivity.
  - split; reflexivity.
  - split; reflexivity.
  - reflexivity.
  - discriminate.
Defined.

(** * Further properties of the drivers *)

Lemma write_file_to_tfrecords_run :
  forall spectrogram notes fps (norm : bool) context_frames w,
    fst (write_file_to_tfrecords spectrogram notes fps norm context_frames w)
    = w
    /\ forall count,
         snd (write_file_to_tfrecords spectrogram notes fps norm
                context_frames w) = Ok count ->
         count = 0
         /\ Z.of_nat (len spectrogram) - context_frames <= context_frames.
Proof.
  intros spectrogram notes fps norm context_frames w.
  destruct (Z.lt_ge_cases context_frames
              (Z.of_nat (len spectrogram) - context_frames)) as [Hlt | Hge].
  - destruct (write_file_to_tfrecords_raises spectrogram notes fps norm
                context_frames w Hlt) as (e & -> & _).
    split; [reflexivity | discriminate].
  - unfold write_file_to_tfrecords, wbind, wlift.
    destruct (midi_to_groundtruth _ _ _ _) as [gt|e];
      [|split; [reflexivity | discriminate]].
    destruct (if norm then normalize spectrogram else Ok spectrogram)
      as [s'|e] eqn:En; [|split; [reflexivity | discriminate]].
    rewrite (optional_normalize_len _ _ _ En).
    rewrite (range_empty _ _ Hge). cbn.
    split; [reflexivity|]. intros count [= <-]. split; [reflexivity | lia].
Qed.

Lemma spectrogram_to_note_activation_cases :
  forall spec context_frames predictor,
    (Z.of_nat (len spec) - context_frames <= context_frames ->
     spectrogram_to_note_activation spec context_frames predictor
     = Ok (mk_ndarray [Nat.max (len spec) 8; 88]%nat
             (repeat 0%Q (Nat.max (len spec) 8 * 88))))
    /\ (context_frames < Z.of_nat (len spec) - context_frames ->
        exists e,
          spectrogram_to_note_activation spec context_frames predictor
          = Raise e).
Proof.
  intros spec context_frames predictor.
  unfold spectrogram_to_note_activation.
  rewrite np_zeros_2d by lia. cbn [bind]. rewrite Nat2Z.id.
  change (Z.to_nat 88) with 88%nat. split.
  - intros Hno. rewrite (range_empty _ _ Hno). cbn [for_each bind].
    rewrite np_zeros_2d by lia. cbn [bind].
    unfold np_append0, getslice_from, getslice. cbn [shape data tl len hd].
    destruct (list_eq_dec Nat.eq_dec [88%nat] [Z.to_nat 88]) as [_|Hne];
      [|exfalso; apply Hne; reflexivity].
    rewrite !slice_bound_nonneg by lia.
    unfold stride. cbn [shape tl prod_shape fold_right].
    rewrite skipn_repeat, firstn_repeat_min, <- repeat_app.
    rewrite !Nat2Z.id. change (Z.to_nat 8) with 8%nat.
    change (Z.to_nat 88) with 88%nat.
    f_equal. f_equal; [f_equal; lia | f_equal; lia].
  - intros Hcenter. destruct (range_nonempty _ _ Hcenter) as (rest & ->).
    cbn [for_each]. unfold get_activation.
    destruct (predictor _) as [act|e]; cbn [bind]; [|now exists e].
    destruct (setitem_row_tuple_raises
                (mk_ndarray [len spec; 88%nat] (repeat 0%Q (len spec * 88)))
                context_frames act) as (e & ->).
    now exists e.
Qed.



Lemma read_records_other path records fs p :
  p <> path ->
  read_records
    ((path, records)
       :: filter (fun f => negb (String.eqb (fst f) path)) fs) p
  = read_records fs p.
Proof.
  intros Hne. unfold read_records. cbn [find fst].
  destruct (String.eqb_spec path p) as [E|_]; [congruence|].
  f_equal. induction fs as [|[q r] fs IH]; [reflexivity|].
  cbn [filter find fst].
  destruct (String.eqb_spec q path) as [-> | Hq]; cbn [negb].
  - destruct (String.eqb_spec path p) as [E|_]; [congruence | exact IH].
  - cbn [find fst]. destruct (String.eqb q p); [reflexivity | exact IH].
Qed.

Lemma read_records_same path records fs :
  read_records
    ((path, records)
       :: filter (fun f => negb (String.eqb (fst f) path)) fs) path
  = Some records.
Proof. unfold read_records. cbn [find fst]. now rewrite String.eqb_refl. Qed.

Lemma ffor_cons {S X} (body : S -> X -> files_m S) st x xs fs :
  ffor body st (x :: xs) fs
  = match body st x fs with
    | (fs1, Ok st1) => ffor body st1 xs fs1
    | (fs1, Raise e) => (fs1, Raise e)
    end.
Proof. reflexivity. Qed.

Lemma fold_step (job : writer_m Z) path total fs :
  fbind (with_writer path job)
        (fun num_ex_processed => fret (total + num_ex_processed)) fs
  = ((path, fst (job []))
       :: filter (fun f => negb (String.eqb (fst f) path)) fs,
     match snd (job []) with
     | Ok n => Ok (total + n)
     | Raise e => Raise e
     end).
Proof.
  unfold fbind, with_writer, fret. now destruct (job []) as [w [n|e]].
Qed.

(** The loop of the fold drivers, when every file is written without an
    exception: the counts add up, and a file holds the records of the last
    entry that was written to its path. *)
Lemma fold_loop_ok (job : fold_entry -> writer_m Z) dir
    (count : fold_entry -> Z) filenames :
  Forall (fun file => snd (job file []) = Ok (count file)) filenames ->
  forall total fs,
  exists fs',
    ffor (fun total_examples_processed file =>
            fbind (with_writer (record_path dir file) (job file))
                  (fun num_ex_processed =>
                     fret (total_examples_processed + num_ex_processed)))
         total filenames fs
    = (fs', Ok (total + zsum (map count filenames)))
    /\ (forall p, Forall (fun file => record_path dir file <> p) filenames ->
          read_records fs' p = read_records fs p)
    /\ forall l1 file l2, filenames = l1 ++ file :: l2 ->
         Forall (fun later => record_path dir later <> record_path dir file)
                l2 ->
         read_records fs' (record_path dir file) = Some (fst (job file [])).
Proof.
  induction 1 as [|file rest Hfile _ IH]; intros total fs.
  - exists fs. cbn [ffor fret map zsum fold_right]. rewrite Z.add_0_r.
    split; [reflexivity|]. split; [reflexivity|].
    intros [|? ?] ? ? E; discriminate.
  - rewrite ffor_cons, fold_step, Hfile.
    destruct (IH (total + count file)
                ((record_path dir file, fst (job file []))
                   :: filter (fun f => negb (String.eqb (fst f)
                                               (record_path dir file))) fs))
      as (fs' & E & Hother & Hread).
    exists fs'. rewrite E. cbn [map zsum fold_right].
    split; [f_equal; f_equal; unfold zsum; lia|]. split.
    + intros p Hp. inversion Hp as [|? ? Hne Hrest]; subst.
      rewrite (Hother p Hrest). apply read_records_other. congruence.
    + intros [|x l1] f l2 El Hl2; cbn [app] in El; injection El as E1 E2.
      * subst f l2. rewrite (Hother _ Hl2). apply read_records_same.
      * subst x. apply (Hread l1 f l2 E2 Hl2).
Qed.

Lemma non_overlap_entry_run fps norm context_frames file :
  (0 < fps)%Q -> 0 < context_frames -> entry_ok file ->
  snd (write_file_to_non_overlap_tfrecords (entry_spectrogram file)
         (entry_notes file) fps norm context_frames [])
  = Ok (entry_records context_frames file)
  /\ Z.of_nat (length (fst (write_file_to_non_overlap_tfrecords
                              (entry_spectrogram file) (entry_notes file) fps
                              norm context_frames [])))
     = entry_records context_frames file.
Proof.
  intros Hfps Hc (F & B & Hs & HF & HB & Hnotes).
  destruct (non_overlap_records (entry_spectrogram file) (entry_notes file)
              fps norm context_frames F B Hs HF HB Hc Hfps Hnotes)
    as (s' & g & o & _ & _ & _ & _ & _ & E).
  rewrite E. unfold entry_records. rewrite (len_matrix _ _ _ Hs).
  cbn [fst snd]. rewrite length_map, length_seq. split; reflexivity.
Qed.

(** X21: on a fold of well-formed entries [preprocess_non_overlap_fold]
    completes, and the count it saves is the sum over the entries of
    ceil(frames / context_frames).  The record file of an entry holds that
    entry's records unless a later entry of the fold has the same path (the
    same last path segment), which replaces the file while both are
    counted. *)
Theorem preprocess_non_overlap_fold_total :
  forall tfrecords_fold fps context_frames filenames norm fs,
    (0 < fps)%Q -> 0 < context_frames -> Forall entry_ok filenames ->
    exists fs',
      preprocess_non_overlap_fold tfrecords_fold fps context_frames filenames
        norm fs
      = (fs', Ok (zsum (map (entry_records context_frames) filenames)))
      /\ forall l1 file l2, filenames = l1 ++ file :: l2 ->
           (Forall (fun later => record_path tfrecords_fold later
                                 <> record_path tfrecords_fold file) l2 ->
            exists records,
              read_records fs' (record_path tfrecords_fold file)
              = Some records
              /\ Z.of_nat (length records)
                 = entry_records context_frames file)
           /\ forall later, last l2 file = later -> l2 <> [] ->
                record_path tfrecords_fold later
                = record_path tfrecords_fold file ->
                read_records fs' (record_path tfrecords_fold file)
                = Some (fst (write_file_to_non_overlap_tfrecords
                               (entry_spectrogram later) (entry_notes later)
                               fps norm context_frames [])).
Proof.
  intros dir fps c filenames norm fs Hfps Hc Hok.
  unfold preprocess_non_overlap_fold.
  destruct (fold_loop_ok
              (fun file => write_file_to_non_overlap_tfrecords
                             (entry_spectrogram file) (entry_notes file) fps
                             norm c)
              dir (entry_records c) filenames) with (total := 0) (fs := fs)
    as (fs' & E & _ & Hread).
  { eapply Forall_impl; [|exact Hok]. intros file Hfile.
    apply (non_overlap_entry_run fps norm c file Hfps Hc Hfile). }
  exists fs'. split; [exact E|].
  intros l1 file l2 El. split.
  - intros Hl2. eexists. split; [apply (Hread l1 file l2 El Hl2)|].
    apply non_overlap_entry_run; try assumption.
    rewrite Forall_forall in Hok. apply Hok. rewrite El.
    apply in_or_app. right. now left.
  - intros later Hlast Hne Hpath. rewrite <- Hpath.
    destruct (exists_last Hne) as (l2' & x & El2). subst l2.
    rewrite last_last in Hlast. subst x.
    apply (Hread (l1 ++ file :: l2') later []).
    + rewrite El, <- app_assoc. reflexivity.
    + constructor.
Qed.

Lemma preprocess_non_overlap_fold_total_witness :
  exists fs',
    preprocess_non_overlap_fold "out/" 100
      10 [mk_fold_entry "a/x" (flat_spectrogram 22 3) [single_note];
          mk_fold_entry "b/x" (flat_spectrogram 5 3) []] false []
    = (fs', Ok 4)
    /\ exists records,
         read_records fs' "out/x.tfrecords" = Some records
         /\ length records = 1%nat.
Proof.
  destruct (preprocess_non_overlap_fold_total "out/" 100 10
              [mk_fold_entry "a/x" (flat_spectrogram 22 3) [single_note];
               mk_fold_entry "b/x" (flat_spectrogram 5 3) []] false [])
    as (fs' & E & H).
  - reflexivity.
  - lia.
  - constructor; [|constructor; [|constructor]].
    + exists 22%nat, 3%nat. split; [split; reflexivity|].
      split; [lia|]. split; [lia|].
      constructor; [exact single_note_ok | constructor].
    + exists 5%nat, 3%nat. split; [split; reflexivity|].
      split; [lia|]. split; [lia|]. constructor.
  - exists fs'. split; [exact E|].
    destruct (H [mk_fold_entry "a/x" (flat_spectrogram 22 3) [single_note]]
                (mk_fold_entry "b/x" (flat_spectrogram 5 3) []) []
                eq_refl) as (Hlast & _).
    destruct (Hlast ltac:(constructor)) as (records & Er & Hn).
    exists records. split; [exact Er|].
    change (entry_records 10 (mk_fold_entry "b/x" (flat_spectrogram 5 3) []))
      with 1 in Hn. lia.
Defined.

Lemma preprocess_fold_loop dir fps c (norm : bool) filenames :
  forall start fs,
    let run :=
      ffor (fun total_examples_processed file =>
              fbind (with_writer (record_path dir file)
                       (write_file_to_tfrecords (entry_spectrogram file)
                          (entry_notes file) fps norm c))
                    (fun num_ex_processed =>
                       fret (total_examples_processed + num_ex_processed)))
           start filenames fs in
    (forall path records,
       read_records (fst run) path = Some records ->
       records = [] \/ read_records fs path = Some records)
    /\ forall total,
         snd run = Ok total ->
         total = start
         /\ Forall (fun file =>
                      Z.of_nat (len (entry_spectrogram file)) - c <= c)
                   filenames.
Proof.
  induction filenames as [|file rest IH]; intros start fs; cbv zeta.
  - cbn [ffor fret fst snd]. split; [intros; now right|].
    intros total [= <-]. split; [reflexivity | constructor].
  - rewrite ffor_cons, fold_step.
    destruct (write_file_to_tfrecords_run (entry_spectrogram file)
                (entry_notes file) fps norm c []) as (Hw & Hcount).
    rewrite Hw.
    destruct (snd (write_file_to_tfrecords (entry_spectrogram file)
                     (entry_notes file) fps norm c [])) as [n|e].
    + destruct (Hcount n eq_refl) as (-> & Hfile). rewrite Z.add_0_r.
      destruct (IH start
                  ((record_path dir file, [])
                     :: filter (fun f => negb (String.eqb (fst f)
                                                 (record_path dir file))) fs))
        as (Hread & Htotal).
      split.
      * intros path records Hr. destruct (Hread path records Hr) as [|Hr'];
          [now left|].
        destruct (String.eqb_spec path (record_path dir file)) as [-> | Hne].
        -- rewrite read_records_same in Hr'. left. congruence.
        -- rewrite read_records_other in Hr' by assumption. now right.
      * intros total Ht. destruct (Htotal total Ht) as (-> & Hrest).
        split; [reflexivity | now constructor].
    + cbn [fst snd]. split; [|discriminate].
      intros path records Hr.
      destruct (String.eqb_spec path (record_path dir file)) as [-> | Hne].
      * rewrite read_records_same in Hr. left. congruence.
      * rewrite read_records_other in Hr by assumption. now right.
Qed.

(** X22: as the source stands, [preprocess_fold] never writes a record:
    every record file on disk afterwards is empty or is an untouched file
    from before.  It completes only when no entry has a center frame, and
    the count it then saves is 0. *)
Theorem preprocess_fold_writes_nothing :
  forall tfrecords_fold fps context_frames filenames norm fs,
    (forall path records,
       read_records
         (fst (preprocess_fold tfrecords_fold fps context_frames filenames
                 norm fs)) path = Some records ->
       records = [] \/ read_records fs path = Some records)
    /\ forall total,
         snd (preprocess_fold tfrecords_fold fps context_frames filenames
                norm fs) = Ok total ->
         total = 0
         /\ Forall (fun file =>
                      Z.of_nat (len (entry_spectrogram file)) - context_frames
                      <= context_frames) filenames.
Proof.
  intros dir fps c filenames norm fs.
  apply (preprocess_fold_loop dir fps c norm filenames 0 fs).
Qed.

Lemma preprocess_fold_writes_nothing_witness :
  preprocess_fold "out/" 100 5
    [mk_fold_entry "a/x" (flat_spectrogram 8 3) [single_note]] true []
  = ([("out/x.tfrecords"%string, [])], Ok 0).
Proof.
  pose proof (preprocess_fold_writes_nothing "out/" 100 5
                [mk_fold_entry "a/x" (flat_spectrogram 8 3) [single_note]]
                true []) as [Hread Htotal].
  destruct (preprocess_fold "out/" 100 5
              [mk_fold_entry "a/x" (flat_spectrogram 8 3) [single_note]]
              true []) as [fs [total|e]] eqn:E.
  - destruct (Htotal total eq_refl) as [-> _].
    assert (H : fst (preprocess_fold "out/" 100 5
                       [mk_fold_entry "a/x" (flat_spectrogram 8 3)
                          [single_note]] true [])
                = [("out/x.tfrecords"%string, [])])
      by (vm_compute; reflexivity).
    rewrite E in H. cbn in H. now subst.
  - exfalso.
    assert (H : is_ok (snd (preprocess_fold "out/" 100 5
                              [mk_fold_entry "a/x" (flat_spectrogram 8 3)
                                 [single_note]] true [])) = true)
      by (vm_compute; reflexivity).
    rewrite E in H. discriminate.
Defined.

(** X23: as the source stands, [write_note_activation_to_mat] never stores a
    prediction.  When it returns, the spectrogram had no center frame, the
    stored features are the all-zero matrix of max(F, 8) rows and the stored
    labels are the pair of [midi_to_groundtruth]; with a center frame it
    raises. *)
Theorem write_note_activation_to_mat_stores_zeros :
  forall spectrogram notes fps norm context_frames predictor,
    (forall mat,
       write_note_activation_to_mat spectrogram notes fps norm context_frames
         predictor = Ok mat ->
       Z.of_nat (len spectrogram) - context_frames <= context_frames
       /\ mat_features mat
          = mk_ndarray [Nat.max (len spectrogram) 8; 88]%nat
              (repeat 0%Q (Nat.max (len spectrogram) 8 * 88))
       /\ midi_to_groundtruth notes (1 / fps) (Z.of_nat (len spectrogram))
            false = Ok (mat_labels mat))
    /\ (context_frames < Z.of_nat (len spectrogram) - context_frames ->
        is_ok (write_note_activation_to_mat spectrogram notes fps norm
                 context_frames predictor) = false).
Proof.
  intros s notes fps norm c predictor. unfold write_note_activation_to_mat.
  destruct (midi_to_groundtruth notes (1 / fps) (Z.of_nat (len s)) false)
    as [gt|e]; cbn [bind]; [|split; [discriminate | reflexivity]].
  destruct (if norm then normalize s else Ok s) as [s'|e] eqn:En;
    cbn [bind]; [|split; [discriminate | reflexivity]].
  pose proof (optional_normalize_len _ _ _ En) as Hlen.
  destruct (spectrogram_to_note_activation_cases s' c predictor)
    as (Hzero & Hraise).
  rewrite Hlen in Hzero, Hraise. split.
  - intros mat.
    destruct (Z.lt_ge_cases c (Z.of_nat (len s) - c)) as [Hlt | Hge].
    + destruct (Hraise Hlt) as (e & ->). discriminate.
    + rewrite (Hzero Hge). cbn [bind]. intros [= <-].
      split; [lia|]. split; reflexivity.
  - intros Hlt. destruct (Hraise Hlt) as (e & ->). reflexivity.
Qed.

Lemma write_note_activation_to_mat_stores_zeros_witness :
  is_ok (write_note_activation_to_mat (flat_spectrogram 28 3) [single_note]
           100 false 5 (zero_predictor 11)) = false.
Proof.
  apply (proj2 (write_note_activation_to_mat_stores_zeros
                  (flat_spectrogram 28 3) [single_note] 100%Q false 5
                  (zero_predictor 11))).
  cbn. lia.
Defined.

Lemma np_round_near q :
  (inject_Z (np_round q) - (1 # 2) <= q
   /\ q <= inject_Z (np_round q) + (1 # 2))%Q.
Proof.
  pose proof (Qfloor_le (q + (1 # 2))) as Hlo.
  pose proof (Qlt_floor (q + (1 # 2))) as Hhi.
  destruct (np_round_cases q) as [-> | (-> & E & _)].
  - rewrite inject_Z_plus in Hhi. change (inject_Z 1) with 1%Q in Hhi.
    split; Lqa.lra.
  - unfold Z.sub. rewrite inject_Z_plus. change (inject_Z (Z.opp 1)) with (Qmake (-1) 1).
    rewrite <- E. split; Lqa.lra.
Qed.

Lemma bend_amount_bounded v :
  -2048 <= py_round ((v - inject_Z (py_round v)) * 4096)%Q <= 2048.
Proof.
  unfold py_round. destruct (np_round_near v) as (Hlo & Hhi).
  split.
  - change (-2048) with (np_round (-2048 # 1)). apply np_round_le. Lqa.lra.
  - change 2048 with (np_round (2048 # 1)). apply np_round_le. Lqa.lra.
Qed.

(** One annotation: the instrument gets a note and a pitch bend per
    observation, and a draw is made for each. *)
Lemma jams_to_midi_notes q rand anno :
  (forall k, -5 <= rand k < 5) ->
  forall k midi_ch,
    length (instrument_pitch_bends midi_ch)
    = length (instrument_notes midi_ch) ->
    Forall (fun n => 95 <= note_velocity n <= 104)
           (instrument_notes midi_ch) ->
    Forall (fun pb => Z.abs (bend_pitch pb) <= 2048 * Z.abs q)
           (instrument_pitch_bends midi_ch) ->
    exists midi_ch',
      fold_left (jams_to_midi_note q rand) anno (k, midi_ch)
      = ((k + length anno)%nat, midi_ch')
      /\ instrument_program midi_ch' = instrument_program midi_ch
      /\ length (instrument_notes midi_ch')
         = (length (instrument_notes midi_ch) + length anno)%nat
      /\ length (instrument_pitch_bends midi_ch')
         = length (instrument_notes midi_ch')
      /\ Forall (fun n => 95 <= note_velocity n <= 104)
                (instrument_notes midi_ch')
      /\ Forall (fun pb => Z.abs (bend_pitch pb) <= 2048 * Z.abs q)
                (instrument_pitch_bends midi_ch').
Proof.
  intros Hrand. induction anno as [|note anno IH]; intros k midi_ch Hl Hv Hb.
  - exists midi_ch. cbn [fold_left length]. rewrite !Nat.add_0_r.
    repeat split; assumption.
  - cbn [fold_left]. unfold jams_to_midi_note at 2.
    edestruct IH as (ch' & E & Hp & Hn & Hl' & Hv' & Hb');
      [| | | rewrite E; exists ch'; split; [f_equal; cbn [length]; lia|]].
    + cbn [instrument_notes instrument_pitch_bends].
      rewrite !length_app. cbn [length]. lia.
    + cbn [instrument_notes]. apply Forall_app. split; [assumption|].
      constructor; [|constructor]. cbn [note_velocity].
      specialize (Hrand k). lia.
    + cbn [instrument_pitch_bends]. apply Forall_app. split; [assumption|].
      constructor; [|constructor]. cbn [bend_pitch].
      pose proof (bend_amount_bounded (obs_value note)) as Hbend.
      rewrite Z.abs_mul. apply Z.mul_le_mono_nonneg; lia.
    + cbn [instrument_program instrument_notes] in Hp, Hn.
      rewrite length_app in Hn. cbn [length] in *.
      repeat split; try assumption. lia.
Qed.

Lemma jams_to_midi_annos q rand annos :
  (forall k, -5 <= rand k < 5) ->
  forall k instruments,
    Forall (instrument_ok q) instruments ->
    exists k' instruments',
      fold_left (jams_to_midi_anno q rand) annos (k, instruments)
      = (k', instruments')
      /\ Forall (instrument_ok q) instruments'
      /\ map (fun i => length (instrument_notes i)) instruments'
         = map (fun i => length (instrument_notes i)) instruments
           ++ filter (fun n => negb (n =? 0)%nat) (map (@length _) annos).
Proof.
  intros Hrand. induction annos as [|anno annos IH]; intros k instruments Hok.
  - exists k, instruments. cbn. rewrite app_nil_r. now repeat split.
  - cbn [fold_left]. unfold jams_to_midi_anno at 2.
    destruct (jams_to_midi_notes q rand anno Hrand k (mk_instrument 25 [] [])
                eq_refl ltac:(constructor) ltac:(constructor))
      as (ch & -> & Hp & Hn & Hl & Hv & Hb).
    cbn [instrument_program instrument_notes length Nat.add] in Hp, Hn.
    cbn [map filter]. rewrite Hn.
    destruct (length anno =? 0)%nat eqn:E0; cbn [negb].
    + destruct (IH (k + length anno)%nat instruments Hok)
        as (k' & ins' & E & Hok' & Hm).
      exists k', ins'. now repeat split.
    + apply Nat.eqb_neq in E0.
      destruct (IH (k + length anno)%nat (instruments ++ [ch]))
        as (k' & ins' & E & Hok' & Hm).
      { apply Forall_app. split; [assumption|]. constructor; [|constructor].
        repeat split; try assumption.
        intros Hnil. rewrite Hnil in Hn. cbn in Hn. lia. }
      exists k', ins'. split; [exact E|]. split; [exact Hok'|].
      rewrite Hm, map_app, <- app_assoc. cbn [map app]. now rewrite Hn.
Qed.

(** X24: every instrument that [jams_to_midi] returns has program 25, at
    least one note and one pitch bend per note; every velocity lies in
    95 .. 104 and every bend in -2048 * |q| .. 2048 * |q| (so q = 0 gives no
    bend at all).  There is one instrument per non-empty annotation, with
    one note per observation; the 'pitch_midi' annotations are used only
    when there is no 'note_midi' annotation. *)
Theorem jams_to_midi_instruments :
  forall note_midi pitch_midi q rand,
    (forall k, -5 <= rand k < 5) ->
    Forall (instrument_ok q) (jams_to_midi note_midi pitch_midi q rand)
    /\ map (fun i => length (instrument_notes i))
           (jams_to_midi note_midi pitch_midi q rand)
       = filter (fun n => negb (n =? 0)%nat)
           (map (@length _)
                (match note_midi with [] => pitch_midi | _ => note_midi end)).
Proof.
  intros note_midi pitch_midi q rand Hrand. unfold jams_to_midi.
  set (annos := if (length note_midi =? 0)%nat then pitch_midi
                else note_midi).
  assert (Ea : annos = match note_midi with [] => pitch_midi
                       | _ => note_midi end)
    by (unfold annos; now destruct note_midi).
  destruct (jams_to_midi_annos q rand annos Hrand 0%nat [] ltac:(constructor))
    as (k' & ins & -> & Hok & Hm).
  cbn [snd]. split; [exact Hok|]. rewrite Hm, Ea. reflexivity.
Qed.

Lemma jams_to_midi_instruments_witness :
  Forall (instrument_ok 1)
    (jams_to_midi [] [[mk_observation 0 (1 # 2) (121 # 2)]; []] 1
       (fun _ => -5))
  /\ map (fun i => length (instrument_notes i))
         (jams_to_midi [] [[mk_observation 0 (1 # 2) (121 # 2)]; []] 1
            (fun _ => -5))
     = [1%nat].
Proof.
  apply (jams_to_midi_instruments []
           [[mk_observation 0 (1 # 2) (121 # 2)]; []] 1 (fun _ => -5)).
  intros k. lia.
Defined.

Lemma grid_shape_ok n :
  0 < n -> exists y x, grid_shape n = Ok (y, x) /\ y * x = n.
Proof.
  intros Hn. unfold grid_shape, factorization.
  replace (n <? 0) with false by (symmetry; apply Z.ltb_ge; lia).
  cbn [bind].
  pose proof (Z.sqrt_spec n ltac:(lia)) as Hsq. cbv zeta in Hsq.
  assert (Hs1 : 1 <= Z.sqrt n).
  { destruct (Z.le_gt_cases 1 (Z.sqrt n)) as [|Hlt]; [assumption|].
    pose proof (Z.sqrt_nonneg n). assert (Z.sqrt n = 0) by lia.
    rewrite H0 in Hsq. cbn in Hsq. lia. }
  destruct (factorization_from_some n (Z.to_nat (Z.sqrt n)) Hn ltac:(lia))
    as ([y x] & E).
  rewrite E. exists y, x. split; [reflexivity|].
  apply (factorization_from_spec n _ y x Hn E).
Qed.

(** X25: for a kernel tensor of shape [Y, X, NumChannels, NumKernels] with
    at least one kernel, both reshapes of [put_kernels_on_grid] are given
    exactly the elements they need, and the image has the shape
    [1, (Y + 2 pad) * grid_Y, (X + 2 pad) * grid_X, NumChannels] with
    grid_Y * grid_X = NumKernels.  Without a kernel the call raises
    TypeError. *)
Theorem put_kernels_on_grid_shape :
  forall Y X channels kernels pad,
    (0 < kernels ->
     exists grid_Y grid_X,
       grid_shape kernels = Ok (grid_Y, grid_X)
       /\ grid_Y * grid_X = kernels
       /\ put_kernels_on_grid [Y; X; channels; kernels] pad
          = Ok [1; (Y + 2 * pad) * grid_Y; (X + 2 * pad) * grid_X; channels])
    /\ put_kernels_on_grid [Y; X; channels; 0] pad = Raise TypeError.
Proof.
  intros Y X channels kernels pad. split; [|reflexivity].
  intros Hk. destruct (grid_shape_ok kernels Hk) as (gy & gx & E & Hg).
  exists gy, gx. split; [exact E|]. split; [exact Hg|].
  unfold put_kernels_on_grid. cbn [nth]. rewrite E. cbn [bind].
  unfold tf_reshape_shape, tf_pad_shape, tf_transpose_shape.
  cbn [map2 map nth fst snd fold_right].
  replace (_ =? _) with true
    by (symmetry; apply Z.eqb_eq; rewrite <- Hg; ring).
  cbn [bind map nth fold_right].
  replace (_ =? _) with true by (symmetry; apply Z.eqb_eq; ring).
  cbn [bind map nth]. reflexivity.
Qed.

Lemma put_kernels_on_grid_shape_witness :
  exists grid_Y grid_X,
    grid_shape 48 = Ok (grid_Y, grid_X)
    /\ grid_Y * grid_X = 48
    /\ put_kernels_on_grid [3; 3; 1; 48] 1
       = Ok [1; (3 + 2 * 1) * grid_Y; (3 + 2 * 1) * grid_X; 1].
Proof.
  apply (proj1 (put_kernels_on_grid_shape 3 3 1 48 1)). lia.
Defined.
